(** * vulnix: whitelist filtering, report rendering and deriver resolution

    A shallow embedding of [src/vulnix/output.py] and of the parts of
    [src/vulnix/nix.py] that resolve store paths to derivations, with the
    properties the specification states about them.

    Conventions.
    - A Python [set] of objects whose [__eq__]/[__hash__] look at one field
      only holds at most one object per value of that field; it is a finite
      map from that field to the rest of the object ([gmap]).
    - [Filtered.__init__] keeps the caller's set object as [self.report]
      and [add] changes it in place; the properties are about one
      instance and the values its fields hold after each call.
    - The comparisons of classes that are not among the sources
      ([Vulnerability.__lt__], [Derive.__lt__]) are parameters: an order
      of identifiers and an order of names, in a record [Orders] that
      the rendering functions take.
    - Console output is collected in order, as a list of events.
    - Exceptions are values of a sum type; mutation of [self] is explicit
      state passing. *)

From Stdlib Require Import ZArith List Ascii String Sorted Permutation Lia.
From stdpp Require Import base option list sorting gmap sets strings pretty.

Local Open Scope Z_scope.
Set Warnings "-register-all".

(* ===================================================================== *)
(** * Value objects                                                       *)
(* ===================================================================== *)

(** [datetime.date]: ordered as the tuple (year, month, day). *)
Record date := Date { year : Z; month : Z; day : Z }.

Definition date_compare (a b : date) : comparison :=
  match year a ?= year b with
  | Eq => match month a ?= month b with
          | Eq => day a ?= day b
          | c => c
          end
  | c => c
  end.

(** [a > b] on dates. *)
Definition date_gtb (a b : date) : bool :=
  match date_compare a b with Gt => true | _ => false end.

Definition date_le (a b : date) : Prop := date_compare a b <> Gt.

(** Modelled from the spec: [vulnix/vulnerability.py] is not among the
    sources.  An advisory has an identifier, a severity score (numeric,
    default 0 meaning unscored) and an optional description; equality,
    hash and ordering look at the identifier alone.  CVSS base scores
    have one fractional digit: [cvssv3] counts tenths, so 9.8 is 98. *)
Record Vulnerability := V {
  cve_id : string;
  cvssv3 : Z;
  description : option string
}.

(** What a [Vulnerability] carries besides its identifier. *)
Record VulnInfo := Info { i_cvssv3 : Z; i_description : option string }.

(** A [set] of [Vulnerability]: one object per identifier. *)
Abbreviation VulnSet := (gmap string VulnInfo).

Definition vuln_of (kv : string * VulnInfo) : Vulnerability :=
  V kv.1 (i_cvssv3 kv.2) (i_description kv.2).

(** Iteration over the set. *)
Definition vulns (s : VulnSet) : list Vulnerability :=
  vuln_of <$> map_to_list s.

(** [set(l)]: of two equal objects the first one stays. *)
Definition vuln_set (l : list Vulnerability) : VulnSet :=
  fold_left (fun s v => s ∪ {[ cve_id v := Info (cvssv3 v) (description v) ]}) l ∅.

(** Modelled from the spec: [vulnix/whitelist.py] is not among the
    sources.  A rule has match criteria, an optional advisory-identifier
    set, an optional expiry date, issue references (a set of strings) and
    comments (an ordered list of strings). *)
Record WhitelistRule := Rule {
  r_pname : string;
  r_version : option string;
  cve : option (gset string);
  r_until : option date;
  issue_url : gset string;
  comment : list string
}.

(** Modelled from the spec: [vulnix/derivation.py] is not among the
    sources.  A derivation has a name, a short name, a version and an
    optional output path; it is compared by name. *)
Record Derive := Drv {
  d_name : string;
  d_pname : string;
  d_version : option string;
  store_path : option string
}.

(** [Vulnerability.__lt__] and [Derive.__lt__] belong to classes that are
    not among the sources.  [a < b] on advisories is decided by an order
    [id_lt] on their identifiers, on derivations by an order [name_lt]
    on their names; which orders these are is a parameter of the
    rendering. *)
Record Orders := {
  id_lt : string -> string -> bool;
  name_lt : string -> string -> bool
}.

(** The byte order of strings on identifiers and on names. *)
Definition byte_order : Orders := {| id_lt := String.ltb; name_lt := String.ltb |}.

(** Modelled from the spec: [Derive.__lt__], of the class that is not
    among the sources; derivations are ordered by their name, in the
    order [name_lt o] of names. *)
Definition derive_ltb (o : Orders) (a b : Derive) : bool :=
  name_lt o (d_name a) (d_name b).

(* ===================================================================== *)
(** * Truth values                                                        *)
(* ===================================================================== *)

Definition str_truthy (s : string) : bool :=
  match s with EmptyString => false | _ => true end.

Definition opt_str_truthy (o : option string) : bool :=
  match o with Some s => str_truthy s | None => false end.

(** A set is true when it has a member. *)
Definition set_truthy (s : VulnSet) : bool := negb (bool_decide (s = ∅)).

Definition ids_truthy (o : option (gset string)) : bool :=
  match o with Some c => negb (bool_decide (c = ∅)) | None => false end.

(** A [date] object is always true; [None] is false. *)
Definition date_truthy (o : option date) : bool :=
  match o with Some _ => true | None => false end.

(* ===================================================================== *)
(** * class Filtered                                                      *)
(* ===================================================================== *)

Record Filtered := Filt {
  derivation : Derive;
  rules : list WhitelistRule;
  report : VulnSet;
  masked : VulnSet;
  until : option date
}.

(** [Filtered.__init__]; [until] is the class attribute [None]. *)
Definition Filtered_init (d : Derive) (vulnerabilities : VulnSet) : Filtered :=
  Filt d [] vulnerabilities ∅ None.

(** One pass of the loop body of [add]:
    [mask = set(vuln for vuln in self.report if vuln.cve_id in wl_rule.cve)],
    [self.report -= mask], [self.masked |= mask]. *)
Definition mask_step (c : gset string) (rm : VulnSet * VulnSet) : VulnSet * VulnSet :=
  let mask : VulnSet := filter (fun kv => kv.1 ∈ c) rm.1 in
  (rm.1 ∖ mask, rm.2 ∪ mask).

(** The update of [self.until]. *)
Definition add_until (cur : option date) (wl_until : option date) : option date :=
  match wl_until with
  | Some u =>
      match cur with
      | None => Some u
      | Some t => if date_gtb t u then Some u else Some t
      end
  | None => cur
  end.

(** [Filtered.add].  The loop [for _r in wl_rule.cve] repeats
    its body once per identifier of the rule. *)
Definition add (f : Filtered) (wl_rule : WhitelistRule) : Filtered :=
  let rules' := rules f ++ [wl_rule] in
  let until' := if date_truthy (r_until wl_rule)
                then add_until (until f) (r_until wl_rule) else until f in
  let rm :=
    match cve wl_rule with
    | Some c =>
        if ids_truthy (Some c)
        then fold_left (fun rm _r => mask_step c rm) (elements c) (report f, masked f)
        else (∅, masked f ∪ report f)
    | None => (∅, masked f ∪ report f)
    end in
  Filt (derivation f) rules' rm.1 rm.2 until'.

(** A sequence of [add] calls. *)
Definition add_all (f : Filtered) (rs : list WhitelistRule) : Filtered :=
  fold_left add rs f.

(* ===================================================================== *)
(** * Strings and formatting                                              *)
(* ===================================================================== *)

Definition nl : string := String "010"%char EmptyString.
Definition esc : string := String "027"%char EmptyString.

Fixpoint replicate_char (n : nat) (c : ascii) : string :=
  match n with
  | O => EmptyString
  | S n' => String c (replicate_char n' c)
  end.

(** [format(s, "<n")]: pad on the right with spaces to width [n]. *)
Definition ljust (n : nat) (s : string) : string :=
  s +:+ replicate_char (n - String.length s) " "%char.

(** [str.isspace] on the ASCII range. *)
Definition py_isspace (c : ascii) : bool :=
  let n := nat_of_ascii c in
  orb (andb (Nat.leb 9 n) (Nat.leb n 13))
      (orb (andb (Nat.leb 28 n) (Nat.leb n 31)) (Nat.eqb n 32)).

Fixpoint lstrip (s : string) : string :=
  match s with
  | String c s' => if py_isspace c then lstrip s' else s
  | EmptyString => EmptyString
  end.

Definition rstrip (s : string) : string := String.rev (lstrip (String.rev s)).

Definition strip (s : string) : string := rstrip (lstrip s).

(** [str(x)] of the float with [t] tenths. *)
Definition str_score (t : Z) : string :=
  (if t <? 0 then "-" else EmptyString)
    +:+ pretty (Z.abs t / 10) +:+ "." +:+ pretty (Z.abs t mod 10).

(** [click.style(text, fg="cyan")]. *)
Definition style_cyan (text : string) : string :=
  esc +:+ "[36m" +:+ text +:+ esc +:+ "[0m".

(** [fmt_vuln]. *)
Definition fmt_vuln (v : Vulnerability) (show_description : bool) : string :=
  let out := "https://nvd.nist.gov/vuln/detail/" +:+ ljust 17 (cve_id v) +:+ " "
             +:+ ljust 8 (if cvssv3 v =? 0 then EmptyString else str_score (cvssv3 v))
             +:+ " " in
  let out := if show_description
             then out +:+ style_cyan (default EmptyString (description v))
             else out in
  rstrip out.

(* ===================================================================== *)
(** * Sorting                                                             *)
(* ===================================================================== *)

(** [sorted(l, key=key)]: a stable sort that compares keys with [<] only. *)
Fixpoint insert_sorted {A K} (key : A -> K) (lt : K -> K -> bool)
    (x : A) (l : list A) : list A :=
  match l with
  | [] => [x]
  | y :: l' => if lt (key y) (key x) then y :: insert_sorted key lt x l'
               else x :: y :: l'
  end.

Definition sorted {A K} (key : A -> K) (lt : K -> K -> bool) (l : list A) : list A :=
  fold_right (insert_sorted key lt) [] l.

(** Modelled from the spec: [Vulnerability.__eq__], of the class that is
    not among the sources; advisories are equal when their identifiers
    are. *)
Definition vuln_eqb (a b : Vulnerability) : bool := String.eqb (cve_id a) (cve_id b).

(** Modelled from the spec: [Vulnerability.__lt__], of the class that is
    not among the sources; advisories are ordered by identifier, in the
    order [id_lt o] of identifiers. *)
Definition vuln_ltb (o : Orders) (a b : Vulnerability) : bool :=
  id_lt o (cve_id a) (cve_id b).

(** [vuln_sort_key]. *)
Definition vuln_sort_key (v : Vulnerability) : Z * Vulnerability := (- cvssv3 v, v).

(** [<] on the key tuples: the first component that differs decides. *)
Definition key_ltb (o : Orders) (a b : Z * Vulnerability) : bool :=
  if a.1 =? b.1
  then (if vuln_eqb a.2 b.2 then false else vuln_ltb o a.2 b.2)
  else a.1 <? b.1.

(** [sorted(s, key=vuln_sort_key)] over a set. *)
Definition sorted_vulns (o : Orders) (s : VulnSet) : list Vulnerability :=
  sorted vuln_sort_key (key_ltb o) (vulns s).

(* ===================================================================== *)
(** * Console output                                                      *)
(* ===================================================================== *)

(** One object of the list [output_json] dumps. *)
Record Entry := {
  e_name : string;
  e_pname : string;
  e_version : option string;
  e_derivation : option string;
  affected_by : list string;
  whitelisted : list string;
  cvssv3_basescore : list (string * Z);
  e_description : list (string * string)
}.

(** What reaches the console: [click.secho], [click.echo], and
    [print(json.dumps(out, indent=1))], which carries the dumped value. *)
Inductive Out :=
| Secho (message : string) (fg : option string) (bold dim : bool)
| Echo (message : string)
| PrintJson (out : list Entry).

(** The union of the rules' issue links,
    [functools.reduce(set.union, (r.issue_url for r in self.rules), set())]. *)
Definition issues_of (rs : list WhitelistRule) : gset string :=
  fold_left (fun acc r => acc ∪ issue_url r) rs ∅.

Definition print_comments (wl : bool) (rule : WhitelistRule) : list Out :=
  match comment rule with
  | [] => []
  | cs => Secho (nl +:+ "Comment:") (Some "blue") false wl
          :: map (fun c => Secho ("* " +:+ c) (Some "blue") false wl) cs
  end.

(** [Filtered.print]. *)
Definition Filtered_print (o : Orders) (self : Filtered)
    (show_masked show_description : bool) : list Out :=
  if andb (negb (set_truthy (report self))) (negb show_masked) then []
  else
    let d := derivation self in
    let wl := negb (set_truthy (report self)) in
    [ Secho (nl +:+ replicate_char 72 "-"%char) None false wl;
      Secho (d_name d +:+ nl) (Some "yellow") true wl ]
    ++ (if opt_str_truthy (store_path d)
        then [Secho (default EmptyString (store_path d)) (Some "magenta") false wl]
        else [])
    ++ [ Secho (rstrip (ljust 50 "CVE" +:+ " " +:+ ljust 8 "CVSSv3" +:+ " "
                        +:+ (if show_description then "Description" else EmptyString)))
               None false wl ]
    ++ map (fun v => Echo (fmt_vuln v show_description)) (sorted_vulns o (report self))
    ++ (if show_masked
        then map (fun v => Secho (fmt_vuln v show_description +:+ "  [whitelisted]")
                                 None false true)
                 (sorted_vulns o (masked self))
        else [])
    ++ (let issues := issues_of (rules self) in
        if bool_decide (issues = ∅) then []
        else Secho (nl +:+ "Issue(s):") (Some "cyan") false wl
             :: map (fun url => Secho url (Some "cyan") false wl) (elements issues))
    ++ concat (map (print_comments wl) (rules self)).

Definition by_derivation (o : Orders) (l : list Filtered) : list Filtered :=
  sorted derivation (derive_ltb o) l.

Definition msg_nothing_to_show (n : nat) : string :=
  "Nothing to show, but " +:+ pretty n +:+ " left out due to whitelisting".

Definition msg_no_advisories : string := "Found no advisories. Excellent!".

(** [output_text]. *)
Definition output_text (o : Orders) (vulns : list Filtered)
    (show_whitelisted show_description : bool) : list Out :=
  let report_l := List.filter (fun v => set_truthy (report v)) vulns in
  let wl := List.filter (fun v => negb (set_truthy (report v))) vulns in
  let nonempty (l : list Filtered) := match l with [] => false | _ => true end in
  if andb (negb (nonempty report_l)) (negb show_whitelisted) then
    if nonempty wl
    then [Secho (msg_nothing_to_show (length wl)) (Some "blue") false false]
    else [Secho msg_no_advisories (Some "green") false false]
  else
    [Secho (pretty (length report_l) +:+ " derivations with active advisories")
           (Some "red") false false]
    ++ (if andb (nonempty wl) (negb show_whitelisted)
        then [Secho (pretty (length wl) +:+ " derivations left out due to whitelisting")
                    (Some "blue") false false]
        else [])
    ++ concat (map (fun i => Filtered_print o i show_whitelisted show_description)
                   (by_derivation o report_l))
    ++ (if show_whitelisted
        then concat (map (fun i => Filtered_print o i show_whitelisted show_description)
                         (by_derivation o wl))
        else [])
    ++ (if andb (nonempty wl) (negb show_whitelisted)
        then [Secho (nl +:+ "use --show-whitelisted to see derivations with only whitelisted CVEs")
                    (Some "blue") false false]
        else []).

Definition sorted_ids (s : VulnSet) : list string :=
  sorted (fun x : string => x) String.ltb (map cve_id (vulns s)).

(** [output_json]. *)
Definition output_json (o : Orders) (items : list Filtered) (show_whitelisted : bool)
  : list Out :=
  let entry (i : Filtered) : list Entry :=
    if andb (negb (set_truthy (report i))) (negb show_whitelisted) then []
    else
      let d := derivation i in
      let all := vulns (report i ∪ masked i) in
      [ {| e_name := d_name d;
           e_pname := d_pname d;
           e_version := d_version d;
           e_derivation := store_path d;
           affected_by := sorted_ids (report i);
           whitelisted := sorted_ids (masked i);
           cvssv3_basescore :=
             omap (fun v => if cvssv3 v =? 0 then None
                            else Some (cve_id v, cvssv3 v)) all;
           e_description :=
             omap (fun v => if opt_str_truthy (description v)
                            then Some (cve_id v, default EmptyString (description v))
                            else None) all |} ] in
  [PrintJson (concat (map entry (by_derivation o items)))].

(** [any(...)] over a list. *)
Definition any {A} (p : A -> bool) (l : list A) : bool := existsb p l.

(** [output]: what is printed, and the returned exit code. *)
Definition output (o : Orders) (items : list Filtered)
    (json_dump show_whitelisted show_description : bool) : list Out * Z :=
  let printed := if json_dump then output_json o items show_whitelisted
                 else output_text o items show_whitelisted show_description in
  (printed,
   if any (fun i => set_truthy (report i)) items then 2
   else if andb show_whitelisted (any (fun i => set_truthy (masked i)) items) then 1
   else 0).

(** The console transcript of a run, colours left out (what a test that
    captures standard output sees). *)
Definition transcript (o : list Out) : string :=
  fold_right (fun e acc =>
    match e with
    | Secho m _ _ _ => m +:+ nl +:+ acc
    | Echo m => m +:+ nl +:+ acc
    | PrintJson _ => acc
    end) EmptyString o.

(* ===================================================================== *)
(** * nix.py: values, exceptions, the outside world                       *)
(* ===================================================================== *)

(** What [json.loads] returns.  A [dict] keeps its items in insertion
    order and has each key once; numbers are integers here. *)
Inductive json :=
| JNull
| JBool (b : bool)
| JNum (n : Z)
| JStr (s : string)
| JList (l : list json)
| JDict (items : list (string * json)).

Definition json_truthy (j : json) : bool :=
  match j with
  | JNull => false
  | JBool b => b
  | JNum n => negb (n =? 0)
  | JStr s => str_truthy s
  | JList l => match l with [] => false | _ => true end
  | JDict l => match l with [] => false | _ => true end
  end.

Inductive exn :=
| RuntimeError (args : list string)
| SkipDrv
| PyError (name : string)        (* TypeError, KeyError, IndexError, ... *)
| ExternalError (what : string). (* raised by a collaborator *)

Inductive Result (A : Type) :=
| Ok (a : A)
| Raise (e : exn).
Arguments Ok {A} a.
Arguments Raise {A} e.

(** The collaborators of [Store], none of them among the sources:
    [utils.call] (runs a command, returns its output, raises when the
    command fails), [os.path.exists], [json.loads], [json.load] of an
    opened file, and [derivation.load] (raises [SkipDrv] for a recipe to
    leave out).  The store does not change during a run. *)
Record World := {
  call : list string -> Result string;
  path_exists : string -> bool;
  json_loads : string -> Result json;
  json_load_file : string -> Result json;
  load : string -> Result Derive
}.

(** [Store].  Modelled from the spec: [Derive.__eq__] and [__hash__], of
    the class that is not among the sources, look at the name, so that
    [derivations], a set of [Derive], holds one derivation for a name. *)
Record Store := {
  requisites : bool;
  closure : bool;
  derivations : gmap string Derive;
  experimental_flag_needed : option bool
}.

(** [Store.__init__(requisites=True, closure=False)]. *)
Definition Store_init (requisites closure : bool) : Store :=
  {| requisites := requisites; closure := closure;
     derivations := ∅; experimental_flag_needed := None |}.

(** Methods of [Store]: they change [self] and return or raise. *)
Definition M (A : Type) : Type := Store -> Result A * Store.

#[global] Instance M_ret : MRet M := fun A a st => (Ok a, st).

#[global] Instance M_bind : MBind M := fun A B f m st =>
  match m st with
  | (Ok a, st') => f a st'
  | (Raise e, st') => (Raise e, st')
  end.

Definition raise {A} (e : exn) : M A := fun st => (Raise e, st).

Definition lift {A} (r : Result A) : M A := fun st => (r, st).

Definition self : M Store := fun st => (Ok st, st).

(** [for x in l: body]. *)
Fixpoint for_each {A} (l : list A) (body : A -> M unit) : M unit :=
  match l with
  | [] => mret tt
  | x :: l' => body x ≫= fun _ => for_each l' body
  end.

(** [for x in l: result.append(f(x))], with [f] that may raise. *)
Fixpoint collect {A B} (l : list A) (f : A -> Result B) : Result (list B) :=
  match l with
  | [] => Ok []
  | x :: l' =>
      match f x with
      | Ok b => match collect l' f with Ok bs => Ok (b :: bs) | Raise e => Raise e end
      | Raise e => Raise e
      end
  end.

(* --------------------------------------------------------------------- *)
(** ** String helpers                                                     *)
(* --------------------------------------------------------------------- *)

(** [s.endswith(suffix)]. *)
Definition endswith (s suffix : string) : bool :=
  String.prefix (String.rev suffix) (String.rev s).

(** [needle in s]. *)
Fixpoint contains (needle s : string) : bool :=
  orb (String.prefix needle s)
      (match s with String _ s' => contains needle s' | EmptyString => false end).

(** Line boundaries of [str.splitlines], ASCII range. *)
Definition is_linebreak (c : ascii) : bool :=
  let n := nat_of_ascii c in
  orb (andb (Nat.leb 10 n) (Nat.leb n 13)) (andb (Nat.leb 28 n) (Nat.leb n 30)).

Fixpoint splitlines_go (cur : string) (s : string) : list string :=
  match s with
  | EmptyString => if str_truthy cur then [String.rev cur] else []
  | String c s' =>
      if is_linebreak c then
        String.rev cur ::
          (match s' with
           | String c' s'' =>
               if andb (Ascii.eqb c "013"%char) (Ascii.eqb c' "010"%char)
               then splitlines_go EmptyString s''
               else splitlines_go EmptyString s'
           | EmptyString => []
           end)
      else splitlines_go (String c cur) s'
  end.

(** [s.splitlines()]. *)
Definition splitlines (s : string) : list string := splitlines_go EmptyString s.

(** [os.path.join(a, b)] for a relative [b]. *)
Definition path_join (a b : string) : string :=
  if negb (str_truthy a) then b
  else if endswith a "/" then a +:+ b
  else a +:+ "/" +:+ b.

(* --------------------------------------------------------------------- *)
(** ** Reading JSON values                                                *)
(* --------------------------------------------------------------------- *)

Fixpoint assoc (k : string) (l : list (string * json)) : option json :=
  match l with
  | [] => None
  | (k', v) :: l' => if String.eqb k k' then Some v else assoc k l'
  end.

(** [info.get(k)], for a field that holds a string or is missing or
    null; the store tool writes no other type there, and one is
    reported where it is read. *)
Definition get_str (info : json) (k : string) : Result (option string) :=
  match info with
  | JDict kv =>
      match assoc k kv with
      | None | Some JNull => Ok None
      | Some (JStr s) => Ok (Some s)
      | Some _ => Raise (PyError "TypeError")
      end
  | _ => Raise (PyError "AttributeError")
  end.

(** [d[k]]. *)
Definition subscript (d : json) (k : string) : Result json :=
  match d with
  | JDict kv => match assoc k kv with
                | Some v => Ok v
                | None => Raise (PyError "KeyError")
                end
  | _ => Raise (PyError "TypeError")
  end.

(** [d.values()]. *)
Definition values (d : json) : Result (list json) :=
  match d with
  | JDict kv => Ok (map snd kv)
  | _ => Raise (PyError "AttributeError")
  end.

(** [list(d.keys())[0]]. *)
Definition first_key (d : json) : Result string :=
  match d with
  | JDict [] => Raise (PyError "IndexError")
  | JDict ((k, _) :: _) => Ok k
  | _ => Raise (PyError "AttributeError")
  end.

Fixpoint chars (s : string) : list json :=
  match s with
  | EmptyString => []
  | String c s' => JStr (String c EmptyString) :: chars s'
  end.

(** [for x in j]. *)
Definition iterate (j : json) : Result (list json) :=
  match j with
  | JList l => Ok l
  | JDict kv => Ok (map (fun p => JStr p.1) kv)
  | JStr s => Ok (chars s)
  | _ => Raise (PyError "TypeError")
  end.

(** A store path read from JSON is a string. *)
Definition as_str (j : json) : Result string :=
  match j with
  | JStr s => Ok s
  | _ => Raise (PyError "TypeError")
  end.

(* ===================================================================== *)
(** * class Store                                                         *)
(* ===================================================================== *)

(** The first statement of [_call_nix]: probe the tool once, keep the
    answer in [self.experimental_flag_needed]. *)
Definition probe_experimental (w : World) : M bool :=
  fun st =>
    match experimental_flag_needed st with
    | Some b => (Ok b, st)
    | None =>
        match call w ["nix"; "--help"] with
        | Ok help =>
            let b := contains "--experimental-features" help in
            (Ok b, {| requisites := requisites st; closure := closure st;
                      derivations := derivations st;
                      experimental_flag_needed := Some b |})
        | Raise e => (Raise e, st)
        end
    end.

Definition nix_command (flag : bool) (args : list string) : list string :=
  if flag then ["nix"; "--experimental-features"; "nix-command flakes"] ++ args
  else ["nix"] ++ args.

(** [Store._call_nix]. *)
Definition _call_nix (w : World) (args : list string) : M string :=
  flag ← probe_experimental w;
  lift (call w (nix_command flag args)).

Definition msg_cannot_determine : string :=
  "Cannot determine deriver. Is this really a path into the nix store?".

(** [Store._find_deriver]; the default of [qpi_deriver] is [Some "undef"]. *)
Definition _find_deriver (w : World) (path : option string)
    (qpi_deriver : option string) : M (option string) :=
  if orb (negb (opt_str_truthy path)) (negb (opt_str_truthy qpi_deriver))
  then mret None
  else
    let path := default EmptyString path in
    if endswith path ".drv" then mret (Some path)
    else
      qpi_deriver ←
        (if bool_decide (qpi_deriver = Some "undef")
         then s ← lift (call w ["nix-store"; "-qd"; path]); mret (strip s)
         else mret (default EmptyString qpi_deriver));
      if andb (str_truthy qpi_deriver)
              (andb (negb (String.eqb qpi_deriver "unknown-deriver"))
                    (path_exists w qpi_deriver))
      then mret (Some qpi_deriver)
      else
        text ← _call_nix w ["show-derivation"; path];
        shown ← lift (json_loads w text);
        qvd_deriver ← lift (first_key shown);
        if andb (str_truthy qvd_deriver) (path_exists w qvd_deriver)
        then mret (Some qvd_deriver)
        else
          let error := EmptyString in
          let error :=
            if andb (str_truthy qpi_deriver)
                    (negb (String.eqb qpi_deriver "unknown-deriver"))
            then error +:+ "Deriver `" +:+ qpi_deriver +:+ "` does not exist.  "
            else error in
          let error :=
            if andb (str_truthy qvd_deriver)
                    (negb (String.eqb qvd_deriver qpi_deriver))
            then error +:+ "Deriver `" +:+ qvd_deriver +:+ "` does not exist.  "
            else error in
          if str_truthy error
          then raise (RuntimeError
                        [error +:+ "Couldn't find deriver for path `" +:+ path +:+ "`"])
          else raise (RuntimeError [msg_cannot_determine; path]).

(** The outputs of one recipe: [drv.get("outputs").values()], each read
    with [output.get("path")]. *)
Definition outputs_of (drv : json) : Result (list (option string)) :=
  match drv with
  | JDict kv =>
      match assoc "outputs" kv with
      | Some outs =>
          match values outs with
          | Ok os => collect os (fun output => get_str output "path")
          | Raise e => Raise e
          end
      | None => Raise (PyError "AttributeError")
      end
  | _ => Raise (PyError "AttributeError")
  end.

(** [Store._find_outputs]. *)
Definition _find_outputs (w : World) (path : string) : M (list (option string)) :=
  if negb (endswith path ".drv") then mret [Some path]
  else
    text ← _call_nix w ["show-derivation"; path];
    shown ← lift (json_loads w text);
    drvs ← lift (values shown);
    per_drv ← lift (collect drvs outputs_of);
    mret (concat per_drv).

(** [Store.update]. *)
Definition update (w : World) (drv_path : option string) : M unit :=
  match drv_path with
  | Some p =>
      if orb (negb (str_truthy p)) (negb (endswith p ".drv")) then mret tt
      else fun st =>
        match load w p with
        | Raise SkipDrv => (Ok tt, st)
        | Raise e => (Raise e, st)
        | Ok drv_obj =>
            (Ok tt, {| requisites := requisites st; closure := closure st;
                       derivations := derivations st ∪ {[ d_name drv_obj := drv_obj ]};
                       experimental_flag_needed := experimental_flag_needed st |})
        end
  | None => mret tt
  end.

(** The branches of [add_path] on the shape of the path-info result. *)
Definition add_path_info (w : World) (data : json) : M unit :=
  if negb (json_truthy data) then mret tt
  else
    match data with
    | JDict items =>
        for_each items (fun item =>
          drv ← lift (get_str item.2 "deriver");
          candidate ← _find_deriver w (Some item.1) drv;
          update w candidate)
    | JList l =>
        for_each l (fun info =>
          outpath ← lift (get_str info "path");
          drv ← lift (get_str info "deriver");
          candidate ← _find_deriver w outpath drv;
          update w candidate)
    | _ => mret tt (* a warning is logged *)
    end.

Definition msg_not_exist (path : string) : string :=
  "path `" +:+ path +:+ "` does not exist - cannot load derivations referenced from it".

(** [Store.add_path]. *)
Definition add_path (w : World) (path : string) : M unit :=
  if negb (path_exists w path) then raise (RuntimeError [msg_not_exist path])
  else
    st ← self;
    if closure st then
      outputs ← _find_outputs w path;
      for_each outputs (fun output =>
        match output with
        | Some o =>
            text ← _call_nix w ["path-info"; "-r"; "--json"; o];
            data ← lift (json_loads w text);
            add_path_info w data
        | None => _ ← probe_experimental w; raise (PyError "TypeError")
        end)
    else
      deriver ← _find_deriver w (Some path) (Some "undef");
      if requisites st then
        match deriver with
        | Some d =>
            out ← lift (call w ["nix-store"; "-qR"; d]);
            for_each (splitlines out) (fun candidate => update w (Some candidate))
        | None => raise (PyError "TypeError")
        end
      else update w deriver.

(** The body both loops of [add_profile] run on an element. *)
Definition add_element (w : World) (element : json) : M unit :=
  active ← lift (subscript element "active");
  if negb (json_truthy active) then mret tt
  else
    store_paths ← lift (subscript element "storePaths");
    paths ← lift (iterate store_paths);
    for_each paths (fun path => p ← lift (as_str path); add_path w p).

(** [line.split()]: the words between runs of whitespace. *)
Fixpoint split_go (cur : string) (s : string) : list string :=
  match s with
  | EmptyString => if str_truthy cur then [String.rev cur] else []
  | String c s' =>
      if py_isspace c
      then (if str_truthy cur then [String.rev cur] else []) ++ split_go EmptyString s'
      else split_go (String c cur) s'
  end.

Definition split (line : string) : list string := split_go EmptyString line.

(** [line.split()[1]]. *)
Definition second_word (line : string) : Result string :=
  match split line with
  | _ :: x :: _ => Ok x
  | _ => Raise (PyError "IndexError")
  end.

(** [Store.add_profile]. *)
Definition add_profile (w : World) (profile : string) : M unit :=
  let json_manifest_path := path_join profile "manifest.json" in
  if path_exists w json_manifest_path then
    json_manifest ← lift (json_load_file w json_manifest_path);
    elements ← lift (subscript json_manifest "elements");
    _ ← match elements with
        | JDict items =>
            for_each (map fst items) (fun name =>
              element ← lift (subscript elements name);
              add_element w element)
        | _ => mret tt
        end;
    match elements with
    | JList l => for_each l (add_element w)
    | _ => mret tt
    end
  else
    out ← lift (call w ["nix-env"; "-q"; "--out-path"; "--profile"; profile]);
    for_each (splitlines out) (fun line =>
      p ← lift (second_word line); add_path w p).

(** [Store.add_gc_roots]. *)
Definition add_gc_roots (w : World) : M unit :=
  out ← lift (call w ["nix-store"; "--gc"; "--print-live"]);
  for_each (splitlines out) (fun d => update w (Some d)).

(* ===================================================================== *)
(** * Notions the properties are stated with                              *)
(* ===================================================================== *)

(** [f] partitions the advisory assignment [vs]. *)
Definition partitions (vs : VulnSet) (f : Filtered) : Prop :=
  report f ##ₘ masked f ∧ report f ∪ masked f = vs.

(** The expiry dates the rules carry, in the order of the rules. *)
Definition expiries (rs : list WhitelistRule) : list date := omap r_until rs.

(** [o] is the minimum of [l]: absent when [l] is empty, else a member
    of [l] that no member precedes. *)
Definition is_minimum (o : option date) (l : list date) : Prop :=
  match o with
  | None => l = []
  | Some m => In m l ∧ Forall (date_le m) l
  end.


(** The rule [r] with another advisory-identifier set. *)
Definition with_cve (r : WhitelistRule) (c : option (gset string)) : WhitelistRule :=
  Rule (r_pname r) (r_version r) c (r_until r) (issue_url r) (comment r).

(** The deriver candidate of the second step of [_find_deriver]: the
    one handed in, or, for the default ["undef"], the stripped answer of
    the deriver query. *)
Definition queried_deriver (w : World) (path qpi_deriver : string) : Result string :=
  if bool_decide (qpi_deriver = "undef")
  then match call w ["nix-store"; "-qd"; path] with
       | Ok s => Ok (strip s)
       | Raise e => Raise e
       end
  else Ok qpi_deriver.

(** Two methods do the same on every store. *)
Definition same_run {A} (m1 m2 : M A) : Prop := ∀ st, m1 st = m2 st.

(** A command's output read as JSON. *)
Definition call_json (w : World) (args : list string) : Result json :=
  match call w args with
  | Ok text => json_loads w text
  | Raise e => Raise e
  end.

(** The recursive path-info query, with or without the opt-in flag. *)
Definition is_path_info_command (args : list string) : Prop :=
  ∃ flag output, args = nix_command flag ["path-info"; "-r"; "--json"; output].

(** A record of the list shape holds what the item [(path, info)] of the
    mapping shape holds: the path and the same deriver field. *)
Definition same_path_info (item : string * json) (record : json) : Prop :=
  ∃ info fields,
    item.2 = JDict info ∧ record = JDict fields
    ∧ assoc "path" fields = Some (JStr item.1)
    ∧ assoc "deriver" fields = assoc "deriver" info.

(** The mapping-shaped and the list-shaped variant of one path-info
    content. *)
Definition path_info_variants (mapping records : json) : Prop :=
  ∃ items l,
    mapping = JDict items ∧ records = JList l ∧ Forall2 same_path_info items l.

(** The mapping-shaped and the list-shaped variant of one collection of
    profile elements; a mapping has each name once. *)
Definition elements_variants (mapping elements : json) : Prop :=
  ∃ items,
    NoDup (map fst items) ∧ mapping = JDict items ∧ elements = JList (map snd items).

(** Two manifests that differ in the shape of their elements at most. *)
Definition manifest_variants (m1 m2 : json) : Prop :=
  ∃ e1 e2,
    subscript m1 "elements" = Ok e1 ∧ subscript m2 "elements" = Ok e2
    ∧ elements_variants e1 e2.

(** Two results are the same, or both are values related by [R]. *)
Definition same_or {A} (R : A -> A -> Prop) (r1 r2 : Result A) : Prop :=
  r1 = r2 ∨ ∃ a1 a2, r1 = Ok a1 ∧ r2 = Ok a2 ∧ R a1 a2.

(** Two worlds with the same content, where the second may answer the
    recursive path-info query and hold profile manifests in the list
    shape where the first has the mapping shape. *)
Record shape_variants (w1 w2 : World) : Prop := {
  sv_exists : ∀ p, path_exists w1 p = path_exists w2 p;
  sv_loads : ∀ text, json_loads w1 text = json_loads w2 text;
  sv_load : ∀ p, load w1 p = load w2 p;
  sv_call : ∀ args, ~ is_path_info_command args -> call w1 args = call w2 args;
  sv_path_info : ∀ args, is_path_info_command args ->
                 same_or path_info_variants (call_json w1 args) (call_json w2 args);
  sv_manifest : ∀ p, same_or manifest_variants (json_load_file w1 p) (json_load_file w2 p)
}.

(* ===================================================================== *)
(** * A small store to run the engine on                                  *)
(* ===================================================================== *)

(** One output path [aaa-foo-1] built by the recipe [bbb-foo-1.drv], and
    one source path [ccc-src] without a deriver.  The path-info answer
    for the output is the text handed in. *)
Definition demo_call (path_info : string) (args : list string) : Result string :=
  if bool_decide (args = ["nix"; "--help"]) then Ok "Usage: nix <COMMAND>"
  else if bool_decide (args = ["nix"; "path-info"; "-r"; "--json"; "/nix/store/aaa-foo-1"])
  then Ok path_info
  else if bool_decide (args = ["nix-store"; "-qd"; "/nix/store/ccc-src"])
  then Ok ("unknown-deriver" +:+ nl)
  else if bool_decide (args = ["nix"; "show-derivation"; "/nix/store/ccc-src"])
  then Ok "show ccc-src"
  else Raise (ExternalError "command failed").

Definition demo_loads (text : string) : Result json :=
  if bool_decide (text = "mapping")
  then Ok (JDict [("/nix/store/aaa-foo-1",
                   JDict [("deriver", JStr "/nix/store/bbb-foo-1.drv");
                          ("narSize", JNum 4096)])])
  else if bool_decide (text = "list")
  then Ok (JList [JDict [("path", JStr "/nix/store/aaa-foo-1");
                         ("deriver", JStr "/nix/store/bbb-foo-1.drv");
                         ("narSize", JNum 4096)]])
  else if bool_decide (text = "show ccc-src")
  then Ok (JDict [("unknown-deriver", JNull)])
  else Raise (PyError "JSONDecodeError").

Definition demo_world (path_info : string) : World :=
  {| call := demo_call path_info;
     path_exists := String.prefix "/nix/store/";
     json_loads := demo_loads;
     json_load_file := fun _ => Raise (PyError "FileNotFoundError");
     load := fun p =>
       if bool_decide (p = "/nix/store/bbb-foo-1.drv")
       then Ok (Drv "foo-1" "foo" (Some "1") None)
       else Raise SkipDrv |}.

(* ===================================================================== *)
(** * The fixtures of tests/output_test.py                                *)
(* ===================================================================== *)

Definition deriv : Derive * VulnSet :=
  (Drv "test-0.2" "test" (Some "0.2")
       (Some "/nix/store/zsawgflc1fq77ijjzb1369zi6kxnc36j-test-0.2"),
   vuln_set [V "CVE-2018-0001" 0 None; V "CVE-2018-0002" 0 None;
             V "CVE-2018-0003" 98 None]).

Definition deriv1 : Derive * VulnSet :=
  (Drv "foo-1" "foo" (Some "1") None,
   vuln_set [V "CVE-2018-0004" 0 None; V "CVE-2018-0005" 0 None]).

Definition deriv2 : Derive * VulnSet :=
  (Drv "bar-2" "bar" (Some "2") None, vuln_set [V "CVE-2018-0006" 50 None]).

Definition filt : Filtered := Filtered_init deriv.1 deriv.2.

Definition items : list Filtered :=
  [Filtered_init deriv.1 deriv.2; Filtered_init deriv1.1 deriv1.2;
   Filtered_init deriv2.1 deriv2.2].

(** [WhitelistRule(...)] with the fields the tests give. *)
Definition rule_test_1_2 : WhitelistRule := Rule "test" (Some "1.2") None None ∅ [].

Definition wl_items : list Filtered :=
  [Filtered_init deriv.1 deriv.2;
   add (Filtered_init deriv1.1 deriv1.2)
       (Rule "*" None (Some {[ "CVE-2018-0004" ]}) None {[ "https://tracker/4" ]} []);
   add (Filtered_init deriv2.1 deriv2.2)
       (Rule "bar" None None None ∅ ["irrelevant"])].

Definition all_masked : list Filtered :=
  map (fun i => add i (Rule (d_pname (derivation i)) None None None ∅ [])) items.

Definition expected_text : string :=
"2 derivations with active advisories

------------------------------------------------------------------------
foo-1

CVE                                                CVSSv3
https://nvd.nist.gov/vuln/detail/CVE-2018-0005
https://nvd.nist.gov/vuln/detail/CVE-2018-0004  [whitelisted]

Issue(s):
https://tracker/4

------------------------------------------------------------------------
test-0.2

/nix/store/zsawgflc1fq77ijjzb1369zi6kxnc36j-test-0.2
CVE                                                CVSSv3
https://nvd.nist.gov/vuln/detail/CVE-2018-0003     9.8
https://nvd.nist.gov/vuln/detail/CVE-2018-0001
https://nvd.nist.gov/vuln/detail/CVE-2018-0002

------------------------------------------------------------------------
bar-2

CVE                                                CVSSv3
https://nvd.nist.gov/vuln/detail/CVE-2018-0006     5.0  [whitelisted]

Comment:
* irrelevant
".

(* ===================================================================== *)
(** * Further notions: rules, rendering                                   *)
(* ===================================================================== *)

(** The rule [r] suppresses the identifier [k]: it has no (or an empty)
    advisory-identifier set, or [k] is in its set. *)
Definition matches (r : WhitelistRule) (k : string) : bool :=
  match cve r with
  | Some c => if ids_truthy (Some c) then bool_decide (k ∈ c) else true
  | None => true
  end.

(** A [Filtered] as the program builds it: constructed, then rules added. *)
Definition filtered_of (s : Derive * VulnSet * list WhitelistRule) : Filtered :=
  add_all (Filtered_init s.1.1 s.1.2) s.2.

(** The identifiers of the members of a set. *)
Definition ids (s : VulnSet) : list string := (map_to_list s).*1.

(** The objects a run of [output_json] dumps. *)
Definition dumped (o : list Out) : list Entry :=
  concat (map (fun e => match e with PrintJson es => es | _ => [] end) o).

(** The item is listed by [output_json]. *)
Definition listed (show_whitelisted : bool) (i : Filtered) : bool :=
  orb (set_truthy (report i)) show_whitelisted.

(** The summary line that opens a listing. *)
Definition count_line (n : nat) : Out :=
  Secho (pretty n +:+ " derivations with active advisories") (Some "red") false false.

(* ===================================================================== *)
(** * Store.load_pkgs_json                                                *)
(* ===================================================================== *)

(** [" ".join(l)]. *)
Fixpoint join_space (l : list string) : string :=
  match l with
  | [] => EmptyString
  | [x] => x
  | x :: l' => x +:+ " " +:+ join_space l'
  end.

(** The body of the [try] of [load_pkgs_json], up to the construction of
    the [Derive].  [Derive(name=..., patches=...)] is [derive_new]: the
    class is not among the sources; it raises [SkipDrv] for a package to
    leave out.  [patches.extend] needs a list; [join] takes any iterable
    of strings; the name is a string. *)
Definition pkg_derive (derive_new : string -> string -> Result Derive) (pkg : json)
  : Result Derive :=
  match subscript pkg "patches" with
  | Raise e => Raise e
  | Ok patches =>
      let extended :=
        match pkg with
        | JDict kv =>
            match assoc "known_vulnerabilities" kv with
            | Some known =>
                match patches with
                | JList l =>
                    match iterate known with
                    | Ok more => Ok (JList (l ++ more))
                    | Raise e => Raise e
                    end
                | _ => Raise (PyError "AttributeError")
                end
            | None => Ok patches
            end
        | _ => Ok patches
        end in
      match extended with
      | Raise e => Raise e
      | Ok patches =>
          match subscript pkg "name" with
          | Raise e => Raise e
          | Ok name =>
              match iterate patches with
              | Raise e => Raise e
              | Ok parts =>
                  match collect parts as_str with
                  | Raise e => Raise e
                  | Ok strs =>
                      match as_str name with
                      | Raise e => Raise e
                      | Ok n => derive_new n (join_space strs)
                      end
                  end
              end
          end
      end
  end.

(** One round of the loop of [load_pkgs_json]. *)
Definition add_pkg (derive_new : string -> string -> Result Derive) (pkg : json)
  : M unit :=
  fun st =>
    match pkg_derive derive_new pkg with
    | Ok drv =>
        (Ok tt, {| requisites := requisites st; closure := closure st;
                   derivations := derivations st ∪ {[ d_name drv := drv ]};
                   experimental_flag_needed := experimental_flag_needed st |})
    | Raise SkipDrv => (Ok tt, st)
    | Raise e => (Raise e, st)
    end.

(** [Store.load_pkgs_json]; [loaded] is what [json.load(json_fobj)]
    returns or raises. *)
Definition load_pkgs_json (derive_new : string -> string -> Result Derive)
    (loaded : Result json) : M unit :=
  data ← lift loaded;
  pkgs ← lift (values data);
  for_each pkgs (add_pkg derive_new).

(* ===================================================================== *)
(** * Further notions: what a run does to the store                       *)
(* ===================================================================== *)

(** From [st] to [st'] the modes are kept, a known answer of the probe
    is kept, no derivation is dropped or replaced, and every new
    derivation satisfies [from] and is filed under its name. *)
Definition grows_by (from : Derive -> Prop) (st st' : Store) : Prop :=
  requisites st' = requisites st
  ∧ closure st' = closure st
  ∧ (∀ b, experimental_flag_needed st = Some b -> experimental_flag_needed st' = Some b)
  ∧ derivations st ⊆ derivations st'
  ∧ (∀ n d, derivations st' !! n = Some d ->
            derivations st !! n = Some d ∨ (from d ∧ d_name d = n)).

(** [d] is what [derivation.load] gives for some recipe path. *)
Definition loaded_recipe (w : World) (d : Derive) : Prop :=
  ∃ p, endswith p ".drv" = true ∧ load w p = Ok d.

(** Two worlds that differ in the help text of the tool at most. *)
Definition same_but_help (w w' : World) : Prop :=
  (∀ p, path_exists w p = path_exists w' p)
  ∧ (∀ text, json_loads w text = json_loads w' text)
  ∧ (∀ p, json_load_file w p = json_load_file w' p)
  ∧ (∀ p, load w p = load w' p)
  ∧ (∀ args, args <> ["nix"; "--help"] -> call w args = call w' args).

(** A profile element as the manifest holds it: the [active] flag and
    the store paths, among other fields. *)
Definition element_of (element : json) (spec : bool * list string) : Prop :=
  subscript element "active" = Ok (JBool spec.1)
  ∧ subscript element "storePaths" = Ok (JList (map JStr spec.2)).

(** The store paths of the active elements, in order. *)
Definition active_paths (specs : list (bool * list string)) : list string :=
  concat (map snd (List.filter fst specs)).

(** The method [m] only ever makes the store grow, by derivations that
    satisfy [from]; also when it raises. *)
Definition keeps (from : Derive -> Prop) {A} (m : M A) : Prop :=
  ∀ st, grows_by from st (m st).2.

(** [d] is what the constructor gives for some package. *)
Definition constructed (derive_new : string -> string -> Result Derive) (d : Derive) : Prop :=
  ∃ name patches, derive_new name patches = Ok d.

(** Two methods do the same on every store that knows the answer of the
    probe. *)
Definition same_known {A} (m1 m2 : M A) : Prop :=
  ∀ st, is_Some (experimental_flag_needed st) -> m1 st = m2 st.

(** A store whose recipes are gone: the output [ddd-bar-2] names a
    deriver, its description names another, and neither exists. *)
Definition stale_world : World :=
  {| call := fun args =>
       if bool_decide (args = ["nix"; "--help"]) then Ok "Usage: nix <COMMAND>"
       else if bool_decide (args = ["nix-store"; "-qd"; "/nix/store/ddd-bar-2"])
       then Ok ("/gone/ddd-bar-2.drv" +:+ nl)
       else if bool_decide (args = ["nix"; "show-derivation"; "/nix/store/ddd-bar-2"])
       then Ok "show ddd-bar-2"
       else Raise (ExternalError "command failed");
     path_exists := String.prefix "/nix/store/";
     json_loads := fun text =>
       if bool_decide (text = "show ddd-bar-2")
       then Ok (JDict [("/gone/eee-bar-2.drv", JNull)])
       else Raise (PyError "JSONDecodeError");
     json_load_file := fun _ => Raise (PyError "FileNotFoundError");
     load := fun _ => Raise SkipDrv |}.

(** A package of the feed as it is written: name, patches, and the
    known vulnerabilities if it lists any. *)
Definition pkg_of (pkg : json) (name : string) (patches : list string)
    (known : option (list string)) : Prop :=
  ∃ kv, pkg = JDict kv
        ∧ assoc "name" kv = Some (JStr name)
        ∧ assoc "patches" kv = Some (JList (map JStr patches))
        ∧ assoc "known_vulnerabilities" kv
          = (fun l => JList (map JStr l)) <$> known.

(** A constructor for the examples: packages without a version in their
    name are left out. *)
Definition demo_derive (name patches : string) : Result Derive :=
  if contains "-" name then Ok (Drv name name None None) else Raise SkipDrv.

(** A manifest that lists the output [aaa-foo-1] as active and the
    source [ccc-src] as inactive. *)
Definition demo_elements : list json :=
  [JDict [("active", JBool true); ("storePaths", JList [JStr "/nix/store/aaa-foo-1"])];
   JDict [("active", JBool false); ("storePaths", JList [JStr "/nix/store/ccc-src"])]].

Definition demo_manifest : json :=
  JDict [("version", JNum 2); ("elements", JList demo_elements)].

(** The store of [demo_world] with a profile that has this manifest. *)
Definition profile_world : World :=
  {| call := call (demo_world "list");
     path_exists := fun p =>
       orb (String.prefix "/nix/store/" p) (String.eqb p "/profiles/me/manifest.json");
     json_loads := json_loads (demo_world "list");
     json_load_file := fun p =>
       if String.eqb p "/profiles/me/manifest.json" then Ok demo_manifest
       else Raise (PyError "FileNotFoundError");
     load := load (demo_world "list") |}.

(** The address every rendered advisory starts with. *)
Definition nvd_url : string := "https://nvd.nist.gov/vuln/detail/".

(** The plain lines ([click.echo]) among what was printed. *)
Definition echoes (o : list Out) : list string :=
  omap (fun e => match e with Echo m => Some m | _ => None end) o.

(* ===================================================================== *)
(** * Filtered: the partition into active and suppressed                  *)
(* ===================================================================== *)

Lemma mask_step_report (c : gset string) (rm : VulnSet * VulnSet) (k : string) :
  (mask_step c rm).1 !! k = if decide (k ∈ c) then None else rm.1 !! k.
Proof.
  unfold mask_step; simpl.
  rewrite lookup_difference, map_lookup_filter.
  destruct (rm.1 !! k) as [i|] eqn:E; simpl.
  - destruct (decide (k ∈ c)) as [H|H].
    + rewrite option_guard_True by done. done.
    + rewrite option_guard_False by done. done.
  - by destruct (decide (k ∈ c)).
Qed.

Lemma mask_step_masked (c : gset string) (rm : VulnSet * VulnSet) (k : string) :
  (mask_step c rm).2 !! k =
  match rm.2 !! k with
  | Some i => Some i
  | None => if decide (k ∈ c) then rm.1 !! k else None
  end.
Proof.
  unfold mask_step; simpl.
  rewrite lookup_union, map_lookup_filter.
  destruct (rm.2 !! k) as [j|] eqn:E2; simpl.
  - by destruct (_ ≫= _).
  - destruct (rm.1 !! k) as [i|] eqn:E1; simpl.
    + destruct (decide (k ∈ c)) as [H|H].
      * rewrite option_guard_True by done. done.
      * rewrite option_guard_False by done. done.
    + by destruct (decide (k ∈ c)).
Qed.

Lemma mask_step_idemp (c : gset string) (rm : VulnSet * VulnSet) :
  mask_step c (mask_step c rm) = mask_step c rm.
Proof.
  apply injective_projections; apply map_eq; intros k.
  - rewrite mask_step_report. by destruct (decide (k ∈ c)); [rewrite mask_step_report, decide_True|].
  - rewrite mask_step_masked.
    destruct ((mask_step c rm).2 !! k) eqn:E; [done|].
    destruct (decide (k ∈ c)); [|done].
    by rewrite mask_step_report, decide_True.
Qed.

(** The loop of [add] does what one pass of its body does. *)
Lemma mask_loop (c : gset string) (A : Type) (l : list A) (rm : VulnSet * VulnSet) :
  l <> [] ->
  fold_left (fun rm _r => mask_step c rm) l rm = mask_step c rm.
Proof.
  destruct l as [|x l]; [done|intros _; simpl].
  induction l as [|y l IH]; simpl; [done|].
  by rewrite mask_step_idemp.
Qed.

Lemma add_specific (f : Filtered) (r : WhitelistRule) (c : gset string) :
  cve r = Some c -> c <> ∅ ->
  report (add f r) = (mask_step c (report f, masked f)).1
  ∧ masked (add f r) = (mask_step c (report f, masked f)).2.
Proof.
  intros Hc Hne. unfold add. rewrite Hc. simpl.
  rewrite bool_decide_false by done. simpl.
  rewrite mask_loop; [done|].
  intros He. by apply elements_empty_inv, leibniz_equiv in He.
Qed.

Lemma truthy_ids (r : WhitelistRule) :
  ids_truthy (cve r) = true -> exists c, cve r = Some c ∧ c <> ∅.
Proof.
  destruct (cve r) as [c|]; simpl; [|done].
  intros Ht. exists c. split; [done|]. intros ->. by rewrite bool_decide_true in Ht.
Qed.

Lemma add_blanket (f : Filtered) (r : WhitelistRule) :
  ids_truthy (cve r) = false ->
  report (add f r) = ∅ ∧ masked (add f r) = masked f ∪ report f.
Proof.
  intros H. unfold add. destruct (cve r) as [c|]; [rewrite H|]; done.
Qed.

Lemma mask_step_partitions (c : gset string) (r m : VulnSet) :
  r ##ₘ m ->
  (mask_step c (r, m)).1 ##ₘ (mask_step c (r, m)).2
  ∧ (mask_step c (r, m)).1 ∪ (mask_step c (r, m)).2 = r ∪ m.
Proof.
  intros Hd. split.
  - apply map_disjoint_alt; intros k.
    rewrite mask_step_report, mask_step_masked; simpl.
    destruct (decide (k ∈ c)); [by left|].
    destruct (map_disjoint_alt r m) as [Hk _]. specialize (Hk Hd k).
    destruct Hk as [->| ->]; [by left|by right].
  - apply map_eq; intros k.
    rewrite !lookup_union, mask_step_report, mask_step_masked; simpl.
    destruct (map_disjoint_alt r m) as [Hk _]. specialize (Hk Hd k).
    destruct (decide (k ∈ c)), (r !! k) eqn:Er, (m !! k) eqn:Em; simpl;
      try done; destruct Hk; done.
Qed.

Lemma add_partitions (vs : VulnSet) (f : Filtered) (r : WhitelistRule) :
  partitions vs f -> partitions vs (add f r).
Proof.
  intros [Hd Hu]. unfold partitions.
  destruct (ids_truthy (cve r)) eqn:Ht.
  - destruct (truthy_ids r Ht) as (c & Hc & Hne).
    destruct (add_specific f r c Hc Hne) as [-> ->].
    destruct (mask_step_partitions c _ _ Hd) as [Hd' Hu'].
    split; [done|]. by rewrite Hu'.
  - destruct (add_blanket f r Ht) as [-> ->]. split.
    + apply map_disjoint_empty_l.
    + rewrite (left_id_L ∅ (∪)). rewrite <- Hu. symmetry. by apply map_union_comm.
Qed.

Lemma add_all_partitions (vs : VulnSet) (rs : list WhitelistRule) (f : Filtered) :
  partitions vs f -> partitions vs (add_all f rs).
Proof.
  revert f. induction rs as [|r rs IH]; intros f Hf; simpl; [done|].
  apply IH. by apply add_partitions.
Qed.

Lemma init_partitions (d : Derive) (vs : VulnSet) : partitions vs (Filtered_init d vs).
Proof.
  split; simpl; [apply map_disjoint_empty_r|apply (right_id_L ∅ (∪))].
Qed.

(** What is suppressed stays suppressed. *)
Lemma add_masked_mono (f : Filtered) (r : WhitelistRule) (k : string) (i : VulnInfo) :
  masked f !! k = Some i -> masked (add f r) !! k = Some i.
Proof.
  intros Hk. destruct (ids_truthy (cve r)) eqn:Ht.
  - destruct (truthy_ids r Ht) as (c & Hc & Hne).
    destruct (add_specific f r c Hc Hne) as [_ ->].
    rewrite mask_step_masked. simpl. by rewrite Hk.
  - destruct (add_blanket f r Ht) as [_ ->].
    by apply lookup_union_Some_l.
Qed.

Lemma add_all_masked_mono (rs : list WhitelistRule) (f : Filtered)
    (k : string) (i : VulnInfo) :
  masked f !! k = Some i -> masked (add_all f rs) !! k = Some i.
Proof.
  revert f. induction rs as [|r rs IH]; intros f Hk; simpl; [done|].
  apply IH. by apply add_masked_mono.
Qed.

(** C1.  For every [Filtered] built from a derivation and an advisory
    set and every sequence of [add] calls, the active set and the
    suppressed set are disjoint, their union is the initial advisory
    set, and an advisory that is suppressed is still suppressed, and not
    active, after any further [add] calls. *)
Theorem C1_active_suppressed_partition
    (d : Derive) (vs : VulnSet) (rs rs' : list WhitelistRule) :
  let f := add_all (Filtered_init d vs) rs in
  let f' := add_all f rs' in
  report f ##ₘ masked f
  ∧ report f ∪ masked f = vs
  ∧ (∀ k i, masked f !! k = Some i ->
            masked f' !! k = Some i ∧ report f' !! k = None).
Proof.
  intros f f'.
  pose proof (add_all_partitions vs rs _ (init_partitions d vs)) as [Hd Hu].
  fold f in Hd, Hu. split; [done|split; [done|]].
  intros k i Hk.
  pose proof (add_all_masked_mono rs' f k i Hk) as Hk'. fold f' in Hk'.
  split; [done|].
  pose proof (add_all_partitions vs rs' f (conj Hd Hu)) as [Hd' _]. fold f' in Hd'.
  destruct (map_disjoint_alt (report f') (masked f')) as [H _].
  destruct (H Hd' k) as [E|E]; [done|congruence].
Qed.

Lemma C1_active_suppressed_partition_witness :
  let f := add_all (Filtered_init deriv1.1 deriv1.2)
             [Rule "*" None (Some {[ "CVE-2018-0004" ]}) None ∅ []] in
  let f' := add_all f [Rule "foo" None (Some {[ "CVE-2018-0005" ]}) None ∅ []] in
  masked f' !! "CVE-2018-0004" = Some (Info 0 None)
  ∧ report f' !! "CVE-2018-0004" = None.
Proof.
  intros f f'.
  apply (proj2 (proj2 (C1_active_suppressed_partition deriv1.1 deriv1.2
                         [Rule "*" None (Some {[ "CVE-2018-0004" ]}) None ∅ []]
                         [Rule "foo" None (Some {[ "CVE-2018-0005" ]}) None ∅ []]))).
  by vm_compute.
Defined.

(** C3.  Whatever rules were applied before, a rule without an
    advisory-identifier set moves the whole remaining active set into
    the suppressed set and leaves the active set empty. *)
Theorem C3_blanket_rule_empties_active (f : Filtered) (r : WhitelistRule) :
  cve r = None ->
  report (add f r) = ∅ ∧ masked (add f r) = masked f ∪ report f.
Proof.
  intros H. apply add_blanket. by rewrite H.
Qed.

(** C10.  A rule whose advisory-identifier set is present but empty
    acts as a blanket rule: the active set is emptied into the
    suppressed set, and active set, suppressed set and earliest expiry
    are those the same rule without the set gives. *)
Theorem C10_empty_identifier_set_is_blanket (f : Filtered) (r : WhitelistRule) :
  cve r = Some ∅ ->
  report (add f r) = ∅
  ∧ masked (add f r) = masked f ∪ report f
  ∧ report (add f r) = report (add f (with_cve r None))
  ∧ masked (add f r) = masked (add f (with_cve r None))
  ∧ until (add f r) = until (add f (with_cve r None)).
Proof.
  intros H.
  assert (ids_truthy (cve r) = false) as Ht by (by rewrite H).
  destruct (add_blanket f r Ht) as [E1 E2].
  destruct (add_blanket f (with_cve r None) eq_refl) as [E3 E4].
  rewrite E1, E2, E3, E4. done.
Qed.

(** C4.  On a [Filtered] reached by [add] calls, a rule with a
    non-empty advisory-identifier set [c] moves the active advisories
    whose identifier is in [c] to the suppressed set, and nothing else:
    an identifier outside [c] is active after if and only if it was
    before, and what was suppressed before is suppressed after. *)
Theorem C4_specific_rule_moves_matching
    (d : Derive) (vs : VulnSet) (rs : list WhitelistRule)
    (r : WhitelistRule) (c : gset string) (k : string) :
  let f := add_all (Filtered_init d vs) rs in
  cve r = Some c -> c <> ∅ ->
  (k ∈ c -> report (add f r) !! k = None
            ∧ ∀ i, report f !! k = Some i -> masked (add f r) !! k = Some i)
  ∧ (k ∉ c -> report (add f r) !! k = report f !! k
              ∧ masked (add f r) !! k = masked f !! k)
  ∧ (∀ i, masked f !! k = Some i -> masked (add f r) !! k = Some i).
Proof.
  intros f Hc Hne.
  destruct (add_specific f r c Hc Hne) as [-> ->].
  rewrite mask_step_report, mask_step_masked. simpl.
  assert (report f ##ₘ masked f) as Hd
    by apply (add_all_partitions vs rs _ (init_partitions d vs)).
  destruct (map_disjoint_alt (report f) (masked f)) as [Hk _].
  specialize (Hk Hd k).
  split; [|split].
  - intros Hin. rewrite !decide_True by done. split; [done|].
    intros i Hi. destruct Hk as [E|E]; [congruence|]. by rewrite E.
  - intros Hout. rewrite !decide_False by done. split; [done|].
    by destruct (masked f !! k).
  - intros i Hi. by rewrite Hi.
Qed.

Lemma C4_specific_rule_moves_matching_witness :
  let d := Drv "foo-1" "foo" (Some "1") None in
  let vs : VulnSet := {[ "CVE-2018-0004" := Info 0 None; "CVE-2018-0005" := Info 0 None ]} in
  let r := Rule "foo" None (Some {[ "CVE-2018-0004" ]}) None ∅ [] in
  report (add (add_all (Filtered_init d vs) []) r) !! "CVE-2018-0005"
  = report (add_all (Filtered_init d vs) []) !! "CVE-2018-0005".
Proof.
  intros d vs r.
  refine (proj1 (proj1 (proj2
    (C4_specific_rule_moves_matching d vs [] r {[ "CVE-2018-0004" ]}
       "CVE-2018-0005" eq_refl _)) _)).
  - vm_compute. discriminate.
  - intros H. apply elem_of_singleton in H. discriminate.
Defined.

(* ===================================================================== *)
(** * Filtered: the earliest expiry                                       *)
(* ===================================================================== *)

Lemma date_le_iff (a b : date) :
  date_le a b <->
  (year a < year b ∨
   (year a = year b ∧ (month a < month b ∨ (month a = month b ∧ day a <= day b)))).
Proof.
  unfold date_le, date_compare.
  destruct (Z.compare_spec (year a) (year b));
    destruct (Z.compare_spec (month a) (month b));
    destruct (Z.compare_spec (day a) (day b));
    split; intros; try lia; try done.
Qed.

Lemma date_le_refl (a : date) : date_le a a.
Proof. apply date_le_iff. lia. Qed.

Lemma date_le_trans (a b c : date) : date_le a b -> date_le b c -> date_le a c.
Proof. rewrite !date_le_iff. lia. Qed.

Lemma date_gtb_true (a b : date) : date_gtb a b = true -> date_le b a.
Proof.
  intros H. assert (~ date_le a b) as Hn.
  { unfold date_le, date_gtb in *. destruct (date_compare a b); try done. auto. }
  rewrite date_le_iff in Hn. apply date_le_iff. lia.
Qed.

Lemma date_gtb_false (a b : date) : date_gtb a b = false -> date_le a b.
Proof.
  unfold date_le, date_gtb. destruct (date_compare a b); done.
Qed.

Lemma add_until_minimum (cur : option date) (l : list date) (u : date) :
  is_minimum cur l -> is_minimum (add_until cur (Some u)) (l ++ [u]).
Proof.
  destruct cur as [t|]; simpl.
  - intros [Hin Hall]. destruct (date_gtb t u) eqn:E; simpl.
    + split; [apply in_or_app; right; by left|].
      apply Forall_app; split; [|repeat constructor; apply date_le_refl].
      eapply Forall_impl; [exact Hall|].
      intros x Hx. eapply date_le_trans; [|exact Hx]. by apply date_gtb_true.
    + split; [apply in_or_app; by left|].
      apply Forall_app; split; [done|].
      repeat constructor. by apply date_gtb_false.
  - intros ->. simpl. split; [by left|]. repeat constructor. apply date_le_refl.
Qed.

Lemma until_add (f : Filtered) (r : WhitelistRule) :
  until (add f r) = add_until (until f) (r_until r).
Proof. unfold add; simpl. by destruct (r_until r). Qed.

Lemma add_all_minimum (rs : list WhitelistRule) (f : Filtered) (l : list date) :
  is_minimum (until f) l ->
  is_minimum (until (add_all f rs)) (l ++ expiries rs).
Proof.
  revert f l. induction rs as [|r rs IH]; intros f l Hf; simpl.
  - unfold expiries; simpl. by rewrite app_nil_r.
  - unfold expiries; simpl. fold (expiries rs).
    destruct (r_until r) as [u|] eqn:Hu.
    + replace (l ++ u :: expiries rs) with ((l ++ [u]) ++ expiries rs)
        by (by rewrite <- app_assoc).
      apply IH. rewrite until_add, Hu. by apply add_until_minimum.
    + apply IH. by rewrite until_add, Hu.
Qed.

(** C5.  After any sequence of rules the tracked earliest expiry is the
    minimum of the expiry dates of the rules applied (absent when none
    carried one); an [add] never makes it later; a rule without an
    expiry date leaves it as it is. *)
Theorem C5_earliest_expiry_is_minimum
    (d : Derive) (vs : VulnSet) (rs : list WhitelistRule)
    (f : Filtered) (r : WhitelistRule) :
  is_minimum (until (add_all (Filtered_init d vs) rs)) (expiries rs)
  ∧ (∀ t, until f = Some t -> ∃ t', until (add f r) = Some t' ∧ date_le t' t)
  ∧ (r_until r = None -> until (add f r) = until f).
Proof.
  split; [|split].
  - apply (add_all_minimum rs (Filtered_init d vs) []). done.
  - intros t Ht. rewrite until_add, Ht.
    destruct (r_until r) as [u|]; simpl.
    + destruct (date_gtb t u) eqn:E.
      * exists u. split; [done|]. by apply date_gtb_true.
      * exists t. split; [done|]. apply date_le_refl.
    + exists t. split; [done|]. apply date_le_refl.
  - intros Hr. by rewrite until_add, Hr.
Qed.

Lemma C5_earliest_expiry_is_minimum_witness :
  let d := Drv "test-0.2" "test" (Some "0.2") None in
  let r1 := Rule "test" (Some "1.2") None (Some (Date 2018 3 5)) ∅ [] in
  let r2 := Rule "test" None None None ∅ [] in
  let f := add (Filtered_init d ∅) r1 in
  (∃ t', until (add f r1) = Some t' ∧ date_le t' (Date 2018 3 5))
  ∧ until (add f r2) = until f.
Proof.
  intros d r1 r2 f. split.
  - exact (proj1 (proj2 (C5_earliest_expiry_is_minimum d ∅ [] f r1))
             (Date 2018 3 5) eq_refl).
  - exact (proj2 (proj2 (C5_earliest_expiry_is_minimum d ∅ [] f r2)) eq_refl).
Defined.

Lemma C3_blanket_rule_empties_active_witness :
  let d := Drv "test-0.2" "test" (Some "0.2") None in
  let vs : VulnSet := {[ "CVE-2018-0001" := Info 0 None ]} in
  report (add (Filtered_init d vs) (Rule "test" (Some "1.2") None None ∅ [])) = ∅.
Proof.
  intros d vs.
  exact (proj1 (C3_blanket_rule_empties_active (Filtered_init d vs)
                  (Rule "test" (Some "1.2") None None ∅ []) eq_refl)).
Defined.

Lemma C10_empty_identifier_set_is_blanket_witness :
  let d := Drv "test-0.2" "test" (Some "0.2") None in
  let vs : VulnSet := {[ "CVE-2018-0001" := Info 0 None ]} in
  report (add (Filtered_init d vs) (Rule "test" None (Some ∅) None ∅ [])) = ∅.
Proof.
  intros d vs.
  exact (proj1 (C10_empty_identifier_set_is_blanket (Filtered_init d vs)
                  (Rule "test" None (Some ∅) None ∅ []) eq_refl)).
Defined.

(* ===================================================================== *)
(** * Rendering order                                                     *)
(* ===================================================================== *)

Section string_order.

Lemma ltb_spec (a b : string) :
  String.ltb a b = true <-> String.leb a b = true ∧ a <> b.
Proof.
  unfold String.ltb, String.leb.
  destruct (String.compare a b) eqn:E.
  - apply String.compare_eq_iff in E. split; [done|]. by intros [_ ?].
  - split; [|done]. intros _. split; [done|].
    intros ->. pose proof (String.compare_antisym b b) as E'.
    rewrite E in E'. discriminate.
  - split; [done|]. by intros [? _].
Qed.

Lemma ltb_irrefl (a : string) : String.ltb a a = false.
Proof.
  destruct (String.ltb a a) eqn:E; [|done].
  apply ltb_spec in E. by destruct E.
Qed.

Lemma ltb_trans (a b c : string) :
  String.ltb a b = true -> String.ltb b c = true -> String.ltb a c = true.
Proof.
  rewrite !ltb_spec. intros [Hab Nab] [Hbc Nbc].
  apply Is_true_true in Hab, Hbc.
  split.
  - apply Is_true_true. change (String.le a c).
    by transitivity b.
  - intros ->. apply Nab. by apply (anti_symm String.le).
Qed.

Lemma ltb_total (a b : string) :
  a <> b -> String.ltb a b = true ∨ String.ltb b a = true.
Proof.
  intros Hne. unfold String.ltb.
  rewrite (String.compare_antisym b a).
  destruct (String.compare a b) eqn:E; simpl; [|by left|by right].
  apply String.compare_eq_iff in E. congruence.
Qed.

End string_order.

Lemma insert_sorted_perm {A K} (key : A -> K) (lt : K -> K -> bool) (x : A) (l : list A) :
  insert_sorted key lt x l ≡ₚ x :: l.
Proof.
  induction l as [|y l IH]; simpl; [done|].
  destruct (lt (key y) (key x)); [|done].
  rewrite IH. apply Permutation_swap.
Qed.

Lemma sorted_perm {A K} (key : A -> K) (lt : K -> K -> bool) (l : list A) :
  sorted key lt l ≡ₚ l.
Proof.
  induction l as [|x l IH]; simpl; [done|].
  by rewrite insert_sorted_perm, IH.
Qed.

Lemma vulns_ids (s : VulnSet) : map cve_id (vulns s) = ids s.
Proof.
  unfold vulns, ids.
  change (map cve_id (vuln_of <$> map_to_list s))
    with (cve_id <$> (vuln_of <$> map_to_list s)).
  by rewrite <- list_fmap_compose.
Qed.

Lemma vulns_NoDup (s : VulnSet) : NoDup (map cve_id (vulns s)).
Proof. rewrite vulns_ids. apply NoDup_fst_map_to_list. Qed.

Section identifier_order.

(** The order of identifiers is a strict order. *)
Context (o : Orders).
Context (lt_irrefl : ∀ a, id_lt o a a = false).
Context (lt_trans : ∀ a b c, id_lt o a b = true -> id_lt o b c = true ->
                             id_lt o a c = true).








End identifier_order.



(* ===================================================================== *)
(** * The report: exit code and the messages of an empty listing          *)
(* ===================================================================== *)

Lemma set_truthy_true (s : VulnSet) : set_truthy s = true <-> s <> ∅.
Proof.
  unfold set_truthy. destruct (decide (s = ∅)) as [E|E].
  - rewrite bool_decide_true by done. simpl. split; [done|]. intros H. by destruct H.
  - rewrite bool_decide_false by done. done.
Qed.

Lemma set_truthy_false (s : VulnSet) : set_truthy s = false <-> s = ∅.
Proof.
  unfold set_truthy. destruct (decide (s = ∅)) as [E|E].
  - rewrite bool_decide_true by done. done.
  - rewrite bool_decide_false by done. simpl. split; [done|]. intros H. by destruct E.
Qed.

Lemma any_true {A} (p : A -> bool) (l : list A) :
  any p l = true <-> Exists (fun x => p x = true) l.
Proof.
  unfold any. induction l as [|x l IH]; simpl.
  - split; [done|]. intros H. inversion H.
  - rewrite orb_true_iff, IH, Exists_cons. done.
Qed.

Lemma any_false {A} (p : A -> bool) (l : list A) :
  any p l = false <-> Forall (fun x => p x = false) l.
Proof.
  unfold any. induction l as [|x l IH]; simpl.
  - split; [constructor|done].
  - rewrite orb_false_iff, IH, Forall_cons. done.
Qed.

Lemma any_report (items : list Filtered) :
  any (fun i => set_truthy (report i)) items = true
  <-> Exists (fun i => report i <> ∅) items.
Proof.
  rewrite any_true.
  split; intros H; (eapply Exists_impl; [exact H|]); intros i; apply set_truthy_true.
Qed.

Lemma none_report (items : list Filtered) :
  any (fun i => set_truthy (report i)) items = false
  <-> Forall (fun i => report i = ∅) items.
Proof.
  rewrite any_false.
  split; intros H; (eapply Forall_impl; [exact H|]); intros i; apply set_truthy_false.
Qed.

(** C2.  The exit code of [output] is 2 when an item has an active
    advisory; else 1 when suppressed advisories are to be shown and an
    item has one; else 0; whichever of the two renderings is chosen. *)
Theorem C2_exit_code (o : Orders)
    (items : list Filtered) (json_dump show_whitelisted show_description : bool) :
  let code := (output o items json_dump show_whitelisted show_description).2 in
  (Exists (fun i => report i <> ∅) items -> code = 2)
  ∧ (Forall (fun i => report i = ∅) items -> show_whitelisted = true ->
     Exists (fun i => masked i <> ∅) items -> code = 1)
  ∧ (Forall (fun i => report i = ∅) items ->
     show_whitelisted = false ∨ Forall (fun i => masked i = ∅) items -> code = 0).
Proof.
  simpl. split; [|split].
  - intros H. apply any_report in H. by rewrite H.
  - intros Hr -> Hm. apply none_report in Hr. rewrite Hr. simpl.
    assert (any (fun i => set_truthy (masked i)) items = true) as ->; [|done].
    apply any_true. eapply Exists_impl; [exact Hm|].
    intros i. apply set_truthy_true.
  - intros Hr Hm. apply none_report in Hr. rewrite Hr.
    destruct Hm as [->|Hm]; [done|].
    assert (any (fun i => set_truthy (masked i)) items = false) as ->.
    { apply any_false. eapply Forall_impl; [exact Hm|].
      intros i. apply set_truthy_false. }
    by rewrite andb_false_r.
Qed.

Lemma C2_exit_code_witness :
  let d := Drv "bar-2" "bar" (Some "2") None in
  let vs : VulnSet := {[ "CVE-2018-0006" := Info 50 None ]} in
  let active := Filtered_init d vs in
  let suppressed := add active (Rule "bar" None None None ∅ ["irrelevant"]) in
  (output byte_order [active] false true false).2 = 2
  ∧ (output byte_order [suppressed] false true false).2 = 1
  ∧ (output byte_order [suppressed] false false false).2 = 0.
Proof.
  intros d vs active suppressed. split; [|split].
  - apply (proj1 (C2_exit_code byte_order [active] false true false)).
    apply Exists_cons_hd. by vm_compute.
  - apply (proj1 (proj2 (C2_exit_code byte_order [suppressed] false true false))).
    + repeat constructor.
    + reflexivity.
    + apply Exists_cons_hd. by vm_compute.
  - apply (proj2 (proj2 (C2_exit_code byte_order [suppressed] false false false))).
    + repeat constructor.
    + by left.
Defined.

Lemma filter_all {A} (p : A -> bool) (l : list A) :
  Forall (fun x => p x = true) l -> List.filter p l = l.
Proof.
  induction 1 as [|x l Hx _ IH]; simpl; [done|]. by rewrite Hx, IH.
Qed.

Lemma filter_none {A} (p : A -> bool) (l : list A) :
  Forall (fun x => p x = false) l -> List.filter p l = [].
Proof.
  induction 1 as [|x l Hx _ IH]; simpl; [done|]. by rewrite Hx, IH.
Qed.

(** C9, as the code has it.  Without suppressed-visibility, a collection
    in which no item has an active advisory is rendered as one message:
    "Found no advisories" for the empty collection, and otherwise
    "Nothing to show, but N left out due to whitelisting" with N the
    number of items, whether or not they hold suppressed advisories. *)
Theorem C9_text_when_nothing_active (o : Orders) (items : list Filtered) (show_description : bool) :
  Forall (fun i => report i = ∅) items ->
  output_text o items false show_description =
  match items with
  | [] => [Secho msg_no_advisories (Some "green") false false]
  | _ => [Secho (msg_nothing_to_show (length items)) (Some "blue") false false]
  end.
Proof.
  intros H. unfold output_text.
  rewrite (filter_none (fun v => set_truthy (report v)) items).
  2:{ eapply Forall_impl; [exact H|]. intros i. apply set_truthy_false. }
  rewrite (filter_all (fun v => negb (set_truthy (report v))) items).
  2:{ eapply Forall_impl; [exact H|]. intros i Hi.
      apply negb_true_iff. by apply set_truthy_false. }
  simpl. by destruct items.
Qed.

Lemma C9_text_when_nothing_active_witness :
  let d := Drv "bar-2" "bar" (Some "2") None in
  let vs : VulnSet := {[ "CVE-2018-0006" := Info 50 None ]} in
  let suppressed := add (Filtered_init d vs) (Rule "bar" None None None ∅ []) in
  output_text byte_order [suppressed] false false
  = [Secho (msg_nothing_to_show 1) (Some "blue") false false].
Proof.
  intros d vs suppressed.
  apply (C9_text_when_nothing_active byte_order [suppressed] false).
  repeat constructor.
Defined.

(** C9 as stated fails: one derivation with no advisory at all, active
    or suppressed, is reported as left out due to whitelisting. *)
Lemma C9_counterexample :
  let items := [Filtered_init (Drv "foo-1" "foo" (Some "1") None) ∅] in
  Forall (fun i => report i = ∅ ∧ masked i = ∅) items
  ∧ (∀ o, output_text o items false false
          = [Secho "Nothing to show, but 1 left out due to whitelisting"
                   (Some "blue") false false])
  ∧ (∀ o, output_text o items false false
          <> [Secho msg_no_advisories (Some "green") false false]).
Proof.
  intros items. split; [by repeat constructor|]. split; intros o; by vm_compute.
Qed.

(* ===================================================================== *)
(** * Store: mapping-shaped and list-shaped inputs                        *)
(* ===================================================================== *)

Section same_runs.

Lemma bind_same {A B} (m1 m2 : M A) (f1 f2 : A -> M B) :
  same_run m1 m2 -> (∀ a, same_run (f1 a) (f2 a)) ->
  same_run (m1 ≫= f1) (m2 ≫= f2).
Proof.
  intros Hm Hf st. unfold mbind, M_bind. rewrite Hm.
  destruct (m2 st) as [[a|e] st']; [apply Hf|done].
Qed.

Lemma lift_same {A} (r1 r2 : Result A) : r1 = r2 -> same_run (lift r1) (lift r2).
Proof. by intros ->. Qed.

Lemma for_each_same {A B} (l1 : list A) (l2 : list B)
    (R : A -> B -> Prop) (f1 : A -> M unit) (f2 : B -> M unit) :
  Forall2 R l1 l2 -> (∀ a b, R a b -> same_run (f1 a) (f2 b)) ->
  same_run (for_each l1 f1) (for_each l2 f2).
Proof.
  intros Hl Hf. induction Hl as [|a b l1 l2 Hab _ IH]; simpl; [done|].
  apply bind_same; [by apply Hf|]. intros _. apply IH.
Qed.

Lemma for_each_same_list {A} (l : list A) (f1 f2 : A -> M unit) :
  (∀ a, same_run (f1 a) (f2 a)) -> same_run (for_each l f1) (for_each l f2).
Proof.
  intros Hf. apply (for_each_same l l eq); [|by intros a b ->].
  induction l; by constructor.
Qed.

End same_runs.

Lemma help_not_path_info : ~ is_path_info_command ["nix"; "--help"].
Proof. intros (flag & o & E). by destruct flag. Qed.

Lemma show_not_path_info (flag : bool) (path : string) :
  ~ is_path_info_command (nix_command flag ["show-derivation"; path]).
Proof. intros (flag' & o & E). by destruct flag, flag'. Qed.

Lemma query_not_path_info (a b c : string) :
  a <> "nix" -> ~ is_path_info_command [a; b; c].
Proof. intros Ha (flag & o & E). destruct flag; simplify_eq/=. Qed.

Section variants.

Context (w1 w2 : World) (Hw : shape_variants w1 w2).

Lemma probe_same : same_run (probe_experimental w1) (probe_experimental w2).
Proof.
  intros st. unfold probe_experimental.
  by rewrite (sv_call _ _ Hw _ help_not_path_info).
Qed.

Lemma show_same (path : string) :
  same_run (_call_nix w1 ["show-derivation"; path])
           (_call_nix w2 ["show-derivation"; path]).
Proof.
  unfold _call_nix. apply bind_same; [apply probe_same|].
  intros flag. apply lift_same, (sv_call _ _ Hw), show_not_path_info.
Qed.

Lemma _find_deriver_same (path qpi_deriver : option string) :
  same_run (_find_deriver w1 path qpi_deriver) (_find_deriver w2 path qpi_deriver).
Proof.
  unfold _find_deriver.
  destruct (orb _ _); [done|].
  destruct (endswith _ _); [done|].
  apply bind_same.
  - destruct (bool_decide _); [|done].
    apply bind_same; [|done].
    apply lift_same, (sv_call _ _ Hw), query_not_path_info. done.
  - intros qpi. rewrite (sv_exists _ _ Hw).
    destruct (andb (str_truthy qpi) _); [done|].
    apply bind_same; [apply show_same|]. intros text.
    apply bind_same; [apply lift_same, (sv_loads _ _ Hw)|]. intros shown.
    apply bind_same; [done|]. intros qvd.
    by rewrite (sv_exists _ _ Hw).
Qed.

Lemma update_same (drv_path : option string) :
  same_run (update w1 drv_path) (update w2 drv_path).
Proof.
  unfold update. destruct drv_path as [p|]; [|done].
  destruct (orb _ _); [done|].
  intros st. by rewrite (sv_load _ _ Hw).
Qed.

Lemma _find_outputs_same (path : string) :
  same_run (_find_outputs w1 path) (_find_outputs w2 path).
Proof.
  unfold _find_outputs. destruct (negb _); [done|].
  apply bind_same; [apply show_same|]. intros text.
  apply bind_same; [apply lift_same, (sv_loads _ _ Hw)|]. done.
Qed.

Lemma register_same (path drv : option string) :
  same_run (_find_deriver w1 path drv ≫= update w1)
           (_find_deriver w2 path drv ≫= update w2).
Proof.
  apply bind_same; [apply _find_deriver_same|]. intros c. apply update_same.
Qed.

Lemma add_path_info_same (data : json) :
  same_run (add_path_info w1 data) (add_path_info w2 data).
Proof.
  unfold add_path_info. destruct (negb _); [done|].
  destruct data; try done.
  - apply for_each_same_list. intros info.
    apply bind_same; [done|]. intros outpath.
    apply bind_same; [done|]. intros drv. apply register_same.
  - apply for_each_same_list. intros item.
    apply bind_same; [done|]. intros drv. apply register_same.
Qed.

(** The two shapes of one path-info content are ingested alike. *)
Lemma add_path_info_variants (mapping records : json) :
  path_info_variants mapping records ->
  same_run (add_path_info w1 mapping) (add_path_info w2 records).
Proof.
  intros (items & l & -> & -> & Hl). unfold add_path_info.
  destruct Hl as [|item record items l Hir Hl]; [done|]. cbn [json_truthy negb].
  apply (for_each_same _ _ same_path_info); [by constructor|].
  intros [p i] r (info & fields & Hi & -> & Hp & Hd). simpl in *. subst i.
  unfold get_str. rewrite Hp, Hd.
  intros st. unfold mbind, M_bind, lift at 1 3. simpl.
  destruct (assoc "deriver" info) as [[]|]; try done; apply register_same.
Qed.

Lemma path_info_same (o : string) :
  same_run
    (_call_nix w1 ["path-info"; "-r"; "--json"; o] ≫= fun text =>
       lift (json_loads w1 text) ≫= fun data => add_path_info w1 data)
    (_call_nix w2 ["path-info"; "-r"; "--json"; o] ≫= fun text =>
       lift (json_loads w2 text) ≫= fun data => add_path_info w2 data).
Proof.
  intros st. unfold _call_nix, mbind, M_bind. rewrite probe_same.
  destruct (probe_experimental w2 st) as [[flag|e] st']; [|done].
  assert (is_path_info_command (nix_command flag ["path-info"; "-r"; "--json"; o]))
    as Hcmd by (by exists flag, o).
  pose proof (sv_path_info _ _ Hw _ Hcmd) as Hv.
  unfold call_json, lift in *.
  destruct (call w1 _) as [t1|e1], (call w2 _) as [t2|e2].
  - destruct Hv as [E|(a1 & a2 & -> & -> & Hv)].
    + rewrite E. destruct (json_loads w2 t2); [apply add_path_info_same|done].
    + by apply add_path_info_variants.
  - destruct Hv as [->|(a1 & a2 & _ & ? & _)]; done.
  - destruct Hv as [<-|(a1 & a2 & ? & _ & _)]; done.
  - destruct Hv as [E|(a1 & a2 & ? & _ & _)]; [|done]. by injection E as ->.
Qed.

Lemma add_path_same (path : string) :
  same_run (add_path w1 path) (add_path w2 path).
Proof.
  unfold add_path. rewrite (sv_exists _ _ Hw).
  destruct (negb _); [done|].
  apply bind_same; [done|]. intros st0.
  destruct (closure st0).
  - apply bind_same; [apply _find_outputs_same|]. intros outputs.
    apply for_each_same_list. intros [o|].
    + apply path_info_same.
    + apply bind_same; [apply probe_same|done].
  - apply bind_same; [apply _find_deriver_same|]. intros deriver.
    destruct (requisites st0); [|apply update_same].
    destruct deriver as [d|]; [|done].
    apply bind_same.
    + apply lift_same, (sv_call _ _ Hw), query_not_path_info. done.
    + intros out. apply for_each_same_list. intros c. apply update_same.
Qed.

Lemma add_element_same (element : json) :
  same_run (add_element w1 element) (add_element w2 element).
Proof.
  unfold add_element. apply bind_same; [done|]. intros active.
  destruct (negb _); [done|].
  apply bind_same; [done|]. intros store_paths.
  apply bind_same; [done|]. intros paths.
  apply for_each_same_list. intros path.
  apply bind_same; [done|]. intros p. apply add_path_same.
Qed.

Lemma elements_same (elements : json) :
  same_run
    (match elements with
     | JDict items =>
         for_each (map fst items) (fun name =>
           element ← lift (subscript elements name); add_element w1 element)
     | _ => mret tt
     end ≫= fun _ =>
     match elements with
     | JList l => for_each l (add_element w1)
     | _ => mret tt
     end)
    (match elements with
     | JDict items =>
         for_each (map fst items) (fun name =>
           element ← lift (subscript elements name); add_element w2 element)
     | _ => mret tt
     end ≫= fun _ =>
     match elements with
     | JList l => for_each l (add_element w2)
     | _ => mret tt
     end).
Proof.
  apply bind_same.
  - destruct elements; try done.
    apply for_each_same_list. intros name.
    apply bind_same; [done|]. intros e. apply add_element_same.
  - intros _. destruct elements; try done.
    apply for_each_same_list. intros e. apply add_element_same.
Qed.

Lemma assoc_NoDup (items : list (string * json)) (name : string) (v : json) :
  NoDup (map fst items) -> (name, v) ∈ items -> assoc name items = Some v.
Proof.
  induction items as [|[k x] items IH]; simpl; intros Hnd Hin.
  - by apply elem_of_nil in Hin.
  - apply NoDup_cons in Hnd as [Hk Hnd].
    apply elem_of_cons in Hin as [E|Hin].
    + injection E as -> ->. by rewrite String.eqb_refl.
    + destruct (String.eqb_spec name k) as [->|Hne]; [|by apply IH].
      destruct Hk. apply list_elem_of_fmap. by exists (k, v).
Qed.

(** The two shapes of one collection of elements are ingested alike. *)
Lemma elements_variants_same (mapping elements : json) :
  elements_variants mapping elements ->
  same_run
    (match mapping with
     | JDict items =>
         for_each (map fst items) (fun name =>
           element ← lift (subscript mapping name); add_element w1 element)
     | _ => mret tt
     end ≫= fun _ =>
     match mapping with
     | JList l => for_each l (add_element w1)
     | _ => mret tt
     end)
    (match elements with
     | JDict items =>
         for_each (map fst items) (fun name =>
           element ← lift (subscript elements name); add_element w2 element)
     | _ => mret tt
     end ≫= fun _ =>
     match elements with
     | JList l => for_each l (add_element w2)
     | _ => mret tt
     end).
Proof.
  intros (items & Hnd & -> & ->).
  assert (same_run
            (for_each (map fst items) (fun name =>
               element ← lift (subscript (JDict items) name); add_element w1 element))
            (for_each (map snd items) (add_element w2))) as Hloop.
  { apply (for_each_same _ _ (fun name v => assoc name items = Some v)).
    - assert (∀ l : list (string * json),
                (∀ kv, kv ∈ l -> assoc kv.1 items = Some kv.2) ->
                Forall2 (fun name v => assoc name items = Some v)
                        (map fst l) (map snd l)) as Hall.
      { induction l as [|kv l IH]; simpl; intros Hl; constructor.
        - apply Hl. by left.
        - apply IH. intros kv' Hkv'. apply Hl. by right. }
      apply Hall. intros [k v] Hkv. by apply assoc_NoDup.
    - intros name v Hv st. unfold mbind, M_bind, lift, subscript. rewrite Hv.
      apply add_element_same. }
  intros st. unfold mbind, M_bind. rewrite Hloop.
  unfold mret, M_ret.
  by destruct (for_each (map snd items) (add_element w2) st) as [[[]|e] st'].
Qed.

Lemma add_profile_same (profile : string) :
  same_run (add_profile w1 profile) (add_profile w2 profile).
Proof.
  unfold add_profile. rewrite (sv_exists _ _ Hw).
  destruct (path_exists w2 _).
  - intros st. unfold mbind at 1 2 5 6, M_bind at 1 2 5 6, lift at 1 2 4 5.
    destruct (sv_manifest _ _ Hw (path_join profile "manifest.json"))
      as [->|(m1 & m2 & -> & -> & e1 & e2 & -> & -> & Hv)].
    + destruct (json_load_file w2 _) as [m|e]; [|done].
      destruct (subscript m "elements") as [els|e]; [|done].
      apply elements_same.
    + by apply elements_variants_same.
  - apply bind_same.
    + apply lift_same, (sv_call _ _ Hw).
      intros (flag & o & E). by destruct flag.
    + intros out. apply for_each_same_list. intros line.
      apply bind_same; [done|]. intros p. apply add_path_same.
Qed.

End variants.

(** C6.  When two worlds hold the same content and differ only in that
    one answers the recursive path-info query, and holds the elements of
    profile manifests, as a mapping where the other has a list, then
    ingesting a path and ingesting a profile leave the same store behind,
    with the same set of discovered derivations, and end the same way. *)
Theorem C6_mapping_and_list_shapes_agree
    (w1 w2 : World) (st : Store) (path profile : string) :
  shape_variants w1 w2 ->
  add_path w1 path st = add_path w2 path st
  ∧ derivations (add_path w1 path st).2 = derivations (add_path w2 path st).2
  ∧ add_profile w1 profile st = add_profile w2 profile st
  ∧ derivations (add_profile w1 profile st).2
    = derivations (add_profile w2 profile st).2.
Proof.
  intros Hw.
  pose proof (add_path_same w1 w2 Hw path st) as E1.
  pose proof (add_profile_same w1 w2 Hw profile st) as E2.
  by rewrite E1, E2.
Qed.

Lemma demo_shape_variants : shape_variants (demo_world "mapping") (demo_world "list").
Proof.
  split; try done.
  - intros args Hn. simpl. unfold demo_call.
    repeat case_bool_decide; try done.
    destruct Hn. subst args. by exists false, "/nix/store/aaa-foo-1".
  - intros args _. unfold call_json; simpl. unfold demo_call.
    repeat case_bool_decide; try (by left).
    right. eexists _, _. split; [reflexivity|]. split; [reflexivity|].
    eexists _, _. split; [reflexivity|]. split; [reflexivity|].
    repeat constructor. by eexists _, _.
  - intros p. by left.
Qed.

Lemma C6_mapping_and_list_shapes_agree_witness :
  let st := Store_init true true in
  add_path (demo_world "mapping") "/nix/store/aaa-foo-1" st
  = add_path (demo_world "list") "/nix/store/aaa-foo-1" st.
Proof.
  intros st.
  exact (proj1 (C6_mapping_and_list_shapes_agree
                  (demo_world "mapping") (demo_world "list") st
                  "/nix/store/aaa-foo-1" "/nix/var/nix/profiles/default"
                  demo_shape_variants)).
Defined.

Example demo_add_path_registers :
  derivations (add_path (demo_world "list") "/nix/store/aaa-foo-1"
                 (Store_init true true)).2
  = {[ "foo-1" := Drv "foo-1" "foo" (Some "1") None ]}.
Proof. by vm_compute. Qed.

(* ===================================================================== *)
(** * Store: deriver resolution                                           *)
(* ===================================================================== *)






(* ===================================================================== *)
(** * The tests of tests/output_test.py, run on the embedding             *)
(* ===================================================================== *)

(** The two orders that are parameters are the byte order here; the
    expected values are those of the test file. *)

(** Sets of advisories are compared by identifier. *)
Example test_init :
  dom (report filt) = {[ "CVE-2018-0001"; "CVE-2018-0002"; "CVE-2018-0003" ]}
  ∧ masked filt = ∅.
Proof. split; [|done]. by vm_compute. Qed.

Example test_add_unspecific_rule : report (add filt rule_test_1_2) = ∅.
Proof. done. Qed.

Example test_add_rule_with_cves :
  let f := add filt (Rule "test" (Some "1.2") (Some {[ "CVE-2018-0001" ]}) None ∅ []) in
  dom (report f) = {[ "CVE-2018-0002"; "CVE-2018-0003" ]}
  ∧ dom (masked f) = {[ "CVE-2018-0001" ]}.
Proof. by vm_compute. Qed.

Example test_add_temporary_whitelist :
  until filt = None
  ∧ until (add filt (Rule "test" (Some "1.2") None (Some (Date 2018 3 5)) ∅ []))
    = Some (Date 2018 3 5).
Proof. done. Qed.

Example test_output_text : transcript (output_text byte_order wl_items true false) = expected_text.
Proof. by vm_compute. Qed.

Example test_output_json :
  output_json byte_order wl_items false =
  [PrintJson
     [ {| e_name := "foo-1"; e_pname := "foo"; e_version := Some "1";
          e_derivation := None;
          affected_by := ["CVE-2018-0005"]; whitelisted := ["CVE-2018-0004"];
          cvssv3_basescore := []; e_description := [] |};
       {| e_name := "test-0.2"; e_pname := "test"; e_version := Some "0.2";
          e_derivation := Some "/nix/store/zsawgflc1fq77ijjzb1369zi6kxnc36j-test-0.2";
          affected_by := ["CVE-2018-0001"; "CVE-2018-0002"; "CVE-2018-0003"];
          whitelisted := [];
          cvssv3_basescore := [("CVE-2018-0003", 98)]; e_description := [] |} ]].
Proof. by vm_compute. Qed.

Example test_exitcode :
  (output byte_order [] true false false).2 = 0
  ∧ (output byte_order items false false false).2 = 2
  ∧ (output byte_order all_masked false false false).2 = 0
  ∧ (output byte_order all_masked false true false).2 = 1.
Proof. by vm_compute. Qed.

(* ===================================================================== *)
(** * Filtered: what a sequence of rules leaves                           *)
(* ===================================================================== *)

Lemma add_report_lookup (f : Filtered) (r : WhitelistRule) (k : string) :
  report (add f r) !! k = if matches r k then None else report f !! k.
Proof.
  unfold matches. destruct (ids_truthy (cve r)) eqn:Ht.
  - destruct (truthy_ids r Ht) as (c & Hc & Hne).
    destruct (add_specific f r c Hc Hne) as [-> _].
    rewrite Hc in *. rewrite Ht, mask_step_report. simpl.
    by destruct (decide (k ∈ c)); [rewrite bool_decide_true|rewrite bool_decide_false].
  - destruct (add_blanket f r Ht) as [-> _].
    destruct (cve r); [rewrite Ht|]; by rewrite lookup_empty.
Qed.

Lemma add_masked_lookup (f : Filtered) (r : WhitelistRule) (k : string) :
  masked (add f r) !! k =
  match masked f !! k with
  | Some i => Some i
  | None => if matches r k then report f !! k else None
  end.
Proof.
  unfold matches. destruct (ids_truthy (cve r)) eqn:Ht.
  - destruct (truthy_ids r Ht) as (c & Hc & Hne).
    destruct (add_specific f r c Hc Hne) as [_ ->].
    rewrite Hc in *. rewrite Ht, mask_step_masked. simpl.
    by destruct (decide (k ∈ c)); [rewrite bool_decide_true|rewrite bool_decide_false].
  - destruct (add_blanket f r Ht) as [_ ->].
    rewrite lookup_union.
    destruct (cve r); [rewrite Ht|]; by destruct (masked f !! k), (report f !! k).
Qed.

Lemma add_all_lookup (f : Filtered) (rs : list WhitelistRule) (k : string) :
  report (add_all f rs) !! k
  = (if existsb (fun r => matches r k) rs then None else report f !! k)
  ∧ masked (add_all f rs) !! k
    = match masked f !! k with
      | Some i => Some i
      | None => if existsb (fun r => matches r k) rs then report f !! k else None
      end.
Proof.
  revert f. induction rs as [|r rs IH]; intros f; simpl.
  - by destruct (masked f !! k).
  - destruct (IH (add f r)) as [-> ->].
    rewrite add_report_lookup, add_masked_lookup.
    destruct (matches r k); simpl.
    + split; [by destruct (existsb _ rs)|].
      destruct (masked f !! k); [done|]. by destruct (report f !! k), (existsb _ rs).
    + split; [done|]. by destruct (masked f !! k).
Qed.

(** X1.  After a sequence of rules an advisory is active exactly when it
    was active before and no rule of the sequence suppresses its
    identifier; it is suppressed exactly when it was suppressed before,
    or was active and some rule of the sequence suppresses it. *)
Theorem add_all_closed_form
    (f : Filtered) (rs : list WhitelistRule) (k : string) (i : VulnInfo) :
  (report (add_all f rs) !! k = Some i
   <-> report f !! k = Some i ∧ Forall (fun r => matches r k = false) rs)
  ∧ (masked (add_all f rs) !! k = Some i
     <-> masked f !! k = Some i
         ∨ (masked f !! k = None ∧ report f !! k = Some i
            ∧ Exists (fun r => matches r k = true) rs)).
Proof.
  destruct (add_all_lookup f rs k) as [-> ->].
  destruct (existsb (fun r => matches r k) rs) eqn:E.
  - pose proof (proj1 (any_true _ rs) E) as Hex.
    split.
    + split; [done|]. intros [_ Hall].
      apply Exists_exists in Hex as (r & Hr & Hm).
      apply (proj1 (Forall_forall _ _) Hall) in Hr. congruence.
    + destruct (masked f !! k) as [j|].
      * split; [by left|]. by intros [?|[? _]].
      * split; [by right|]. by intros [?|(_ & ? & _)].
  - pose proof (proj1 (any_false _ rs) E) as Hall.
    split; [by split; [|intros [? _]]|].
    destruct (masked f !! k) as [j|].
    + split; [by left|]. by intros [?|[? _]].
    + split; [done|]. intros [?|(_ & _ & Hex)]; [done|].
      apply Exists_exists in Hex as (r & Hr & Hm).
      apply (proj1 (Forall_forall _ _) Hall) in Hr. congruence.
Qed.

Lemma add_all_closed_form_witness :
  let f := Filtered_init deriv1.1 deriv1.2 in
  let rs := [Rule "*" None (Some {[ "CVE-2018-0004" ]}) None ∅ []] in
  report (add_all f rs) !! "CVE-2018-0005" = Some (Info 0 None).
Proof.
  intros f rs.
  apply (proj1 (add_all_closed_form f rs "CVE-2018-0005" (Info 0 None))).
  split; [by vm_compute|]. repeat constructor.
Defined.

Lemma add_all_derivation (f : Filtered) (rs : list WhitelistRule) :
  derivation (add_all f rs) = derivation f.
Proof.
  revert f. induction rs as [|r rs IH]; intros f; simpl; [done|]. by rewrite IH.
Qed.

(** X3.  [add] keeps the derivation and records the rules in the order
    they were applied. *)
Theorem add_all_history (f : Filtered) (rs : list WhitelistRule) :
  rules (add_all f rs) = rules f ++ rs ∧ derivation (add_all f rs) = derivation f.
Proof.
  split; [|apply add_all_derivation].
  revert f. induction rs as [|r rs IH]; intros f; simpl.
  - by rewrite app_nil_r.
  - rewrite (IH (add f r)). simpl. by rewrite <- app_assoc.
Qed.

Lemma date_le_antisym (a b : date) : date_le a b -> date_le b a -> a = b.
Proof.
  rewrite !date_le_iff. intros H1 H2.
  destruct a as [y m d], b as [y' m' d']; simpl in *.
  f_equal; lia.
Qed.

Lemma is_minimum_members (o o' : option date) (l l' : list date) :
  (∀ d, In d l <-> In d l') -> is_minimum o l -> is_minimum o' l' -> o = o'.
Proof.
  intros Hm Ho Ho'. destruct o as [m|], o' as [m'|]; simpl in *.
  - destruct Ho as [Hin Hall], Ho' as [Hin' Hall'].
    f_equal. apply date_le_antisym.
    + apply (proj1 (Forall_forall _ _) Hall). apply list_elem_of_In. by apply Hm.
    + apply (proj1 (Forall_forall _ _) Hall'). apply list_elem_of_In. by apply Hm.
  - subst l'. destruct Ho as [Hin _]. by apply Hm in Hin.
  - subst l. destruct Ho' as [Hin _]. by apply Hm in Hin.
  - done.
Qed.

Lemma existsb_members {A} (p : A -> bool) (l l' : list A) :
  (∀ x, x ∈ l <-> x ∈ l') -> existsb p l = existsb p l'.
Proof.
  intros Hm. apply eq_true_iff_eq. rewrite !existsb_exists.
  split; intros (x & Hx & Hp); exists x; (split; [|done]);
    apply list_elem_of_In; apply Hm; by apply list_elem_of_In.
Qed.

(** X2.  Active set, suppressed set and earliest expiry depend on which
    rules were applied only: not on their order, and not on how often a
    rule was applied. *)
Theorem add_all_same_rules (f : Filtered) (rs rs' : list WhitelistRule) :
  (∀ r, r ∈ rs <-> r ∈ rs') ->
  report (add_all f rs) = report (add_all f rs')
  ∧ masked (add_all f rs) = masked (add_all f rs')
  ∧ until (add_all f rs) = until (add_all f rs').
Proof.
  intros Hm. split; [|split].
  - apply map_eq. intros k.
    rewrite (proj1 (add_all_lookup f rs k)), (proj1 (add_all_lookup f rs' k)).
    by rewrite (existsb_members _ rs rs').
  - apply map_eq. intros k.
    rewrite (proj2 (add_all_lookup f rs k)), (proj2 (add_all_lookup f rs' k)).
    by rewrite (existsb_members _ rs rs').
  - assert (is_minimum (until f) (option_list (until f))) as Hf.
    { destruct (until f) as [t|]; simpl; [|done].
      split; [by left|]. repeat constructor. apply date_le_refl. }
    apply (is_minimum_members _ _ (option_list (until f) ++ expiries rs)
                              (option_list (until f) ++ expiries rs'));
      [|by apply add_all_minimum..].
    intros d. rewrite !in_app_iff. unfold expiries.
    rewrite <- !list_elem_of_In, !list_elem_of_omap.
    split; (intros [H|(r & Hr & Hd)]; [by left|right; exists r; split; [by apply Hm|done]]).
Qed.

Lemma add_all_same_rules_witness :
  let r1 := Rule "*" None (Some {[ "CVE-2018-0004" ]}) (Some (Date 2018 3 5)) ∅ [] in
  let r2 := Rule "foo" None (Some {[ "CVE-2018-0005" ]}) (Some (Date 2018 1 9)) ∅ [] in
  let f := Filtered_init deriv1.1 deriv1.2 in
  report (add_all f [r1; r2]) = report (add_all f [r2; r1; r1]).
Proof.
  intros r1 r2 f.
  apply (add_all_same_rules f [r1; r2] [r2; r1; r1]).
  intros r. rewrite !elem_of_cons, !elem_of_nil. tauto.
Defined.

Lemma blanket_matches (r : WhitelistRule) (k : string) :
  ids_truthy (cve r) = false -> matches r k = true.
Proof. unfold matches. intros H. destruct (cve r); [by rewrite H|done]. Qed.

(** Once a blanket rule is among the rules, nothing is active. *)
Lemma add_all_blanket (f : Filtered) (rs : list WhitelistRule) :
  Exists (fun r => ids_truthy (cve r) = false) rs ->
  report (add_all f rs) = ∅ ∧ masked (add_all f rs) = masked f ∪ report f.
Proof.
  intros Hb.
  assert (∀ k, existsb (fun r => matches r k) rs = true) as He.
  { intros k. apply existsb_exists. apply Exists_exists in Hb as (r & Hr & Hb).
    exists r. split; [by apply list_elem_of_In|by apply blanket_matches]. }
  split; apply map_eq; intros k.
  - by rewrite (proj1 (add_all_lookup f rs k)), He, lookup_empty.
  - rewrite (proj2 (add_all_lookup f rs k)), He, lookup_union.
    by destruct (masked f !! k), (report f !! k).
Qed.

(** X4.  When every derivation has had a blanket rule among its rules,
    in any position, the exit code is 0 without suppressed-visibility;
    with it, the exit code is 1 unless no derivation was assigned an
    advisory, and never 2. *)
Theorem blanket_rules_exit_code (o : Orders)
    (specs : list (Derive * VulnSet * list WhitelistRule)) (json_dump show_description : bool) :
  Forall (fun s => Exists (fun r => ids_truthy (cve r) = false) s.2) specs ->
  (output o (map filtered_of specs) json_dump false show_description).2 = 0
  ∧ (output o (map filtered_of specs) json_dump true show_description).2
    = (if forallb (fun s => bool_decide (s.1.2 = ∅)) specs then 0 else 1).
Proof.
  intros Hb. simpl.
  assert (any (fun i => set_truthy (report i)) (map filtered_of specs) = false) as ->.
  { apply none_report. apply Forall_fmap. eapply Forall_impl; [exact Hb|].
    intros s Hs. simpl. by apply (add_all_blanket _ _ Hs). }
  split; [done|]. simpl.
  assert (any (fun i => set_truthy (masked i)) (map filtered_of specs)
          = negb (forallb (fun s => bool_decide (s.1.2 = ∅)) specs)) as ->.
  { unfold any. induction Hb as [|s specs Hs _ IH]; simpl; [done|].
    rewrite IH, negb_andb. f_equal.
    destruct (add_all_blanket (Filtered_init s.1.1 s.1.2) s.2 Hs) as [_ Hm].
    unfold filtered_of, set_truthy. rewrite Hm. simpl.
    by rewrite (left_id_L ∅ (∪)). }
  by destruct (forallb _ specs).
Qed.

Lemma blanket_rules_exit_code_witness :
  (output byte_order all_masked false false false).2 = 0
  ∧ (output byte_order all_masked false true false).2 = 1.
Proof.
  apply (blanket_rules_exit_code byte_order
           [(deriv.1, deriv.2, [Rule "test" None None None ∅ []]);
            (deriv1.1, deriv1.2, [Rule "foo" None None None ∅ []]);
            (deriv2.1, deriv2.2, [Rule "bar" None None None ∅ []])] false false).
  repeat constructor.
Defined.

(* ===================================================================== *)
(** * The report: what the renderings list                                *)
(* ===================================================================== *)

Lemma elem_of_ids (s : VulnSet) (k : string) : k ∈ ids s <-> is_Some (s !! k).
Proof.
  unfold ids. rewrite list_elem_of_fmap. split.
  - intros ([k' i] & -> & H). apply elem_of_map_to_list in H. by exists i.
  - intros [i H]. exists (k, i). split; [done|]. by apply elem_of_map_to_list.
Qed.

Lemma ids_vulns (s : VulnSet) : map cve_id (vulns s) = ids s.
Proof.
  unfold vulns, ids.
  change (map cve_id (vuln_of <$> map_to_list s))
    with (cve_id <$> (vuln_of <$> map_to_list s)).
  by rewrite <- list_fmap_compose.
Qed.

Lemma sorted_ids_perm (s : VulnSet) : sorted_ids s ≡ₚ ids s.
Proof. unfold sorted_ids. by rewrite sorted_perm, ids_vulns. Qed.

Lemma insert_ltb (x : string) (l : list string) :
  StronglySorted (fun a b => String.ltb a b = true) l ->
  Forall (fun y => y <> x) l ->
  StronglySorted (fun a b => String.ltb a b = true)
                 (insert_sorted (fun x : string => x) String.ltb x l).
Proof.
  induction 1 as [|y l Hl IH Hy]; intros Hx; simpl.
  - repeat constructor.
  - apply Forall_cons in Hx as [Hyx Hx].
    destruct (String.ltb y x) eqn:E.
    + constructor; [by apply IH|].
      rewrite insert_sorted_perm. by constructor.
    + assert (String.ltb x y = true) as Hxy.
      { destruct (ltb_total y x Hyx) as [H|H]; [congruence|done]. }
      constructor; [by constructor|].
      constructor; [done|].
      eapply Forall_impl; [exact Hy|].
      intros z Hz. by eapply ltb_trans.
Qed.

Lemma sorted_ids_ascending (s : VulnSet) :
  StronglySorted (fun a b => String.ltb a b = true) (sorted_ids s).
Proof.
  unfold sorted_ids. rewrite ids_vulns.
  pose proof (NoDup_fst_map_to_list s) as Hnd. fold (ids s) in Hnd.
  induction (ids s) as [|x l IH]; simpl; [constructor|].
  apply NoDup_cons in Hnd as [Hx Hnd].
  apply insert_ltb; [by apply IH|].
  rewrite sorted_perm. apply Forall_forall. by intros y Hy ->.
Qed.

Lemma ids_partition (vs : VulnSet) (f : Filtered) :
  partitions vs f -> ids (report f) ++ ids (masked f) ≡ₚ ids vs.
Proof.
  intros [Hd Hu]. apply NoDup_Permutation.
  - apply NoDup_app. split; [apply NoDup_fst_map_to_list|].
    split; [|apply NoDup_fst_map_to_list].
    intros k [i Hi]%elem_of_ids [j Hj]%elem_of_ids.
    destruct (map_disjoint_alt (report f) (masked f)) as [H _].
    destruct (H Hd k); congruence.
  - apply NoDup_fst_map_to_list.
  - intros k. rewrite elem_of_app, !elem_of_ids, <- Hu, lookup_union.
    destruct (report f !! k), (masked f !! k); simpl;
      split; try (intros [H|H]); try intros H; auto; try (by inversion H);
      try (by left); try (by right).
Qed.

Lemma elem_of_dumped_json (o : Orders) (items : list Filtered) (sw : bool) (e : Entry) :
  e ∈ dumped (output_json o items sw) ->
  ∃ i, i ∈ items ∧ e_name e = d_name (derivation i)
       ∧ affected_by e = sorted_ids (report i)
       ∧ whitelisted e = sorted_ids (masked i).
Proof.
  unfold output_json, dumped. simpl. rewrite app_nil_r.
  intros He. apply list_elem_of_In, in_concat in He as (l & Hl & He).
  apply list_elem_of_In in He. apply in_map_iff in Hl as (i & <- & Hi).
  apply list_elem_of_In in Hi.
  exists i. split.
  - unfold by_derivation in Hi. by rewrite sorted_perm in Hi.
  - destruct (andb _ _); [by apply elem_of_nil in He|].
    apply list_elem_of_singleton in He. by subst e.
Qed.

(** X5.  In the JSON report, the entry of a derivation lists every
    advisory assigned to it exactly once, under [affected_by] or under
    [whitelisted], each of the two lists in ascending order. *)
Theorem json_entry_lists_each_advisory_once (o : Orders)
    (specs : list (Derive * VulnSet * list WhitelistRule)) (show_whitelisted : bool)
    (e : Entry) :
  e ∈ dumped (output_json o (map filtered_of specs) show_whitelisted) ->
  ∃ s, s ∈ specs ∧ e_name e = d_name s.1.1
       ∧ affected_by e ++ whitelisted e ≡ₚ ids s.1.2
       ∧ StronglySorted (fun a b => String.ltb a b = true) (affected_by e)
       ∧ StronglySorted (fun a b => String.ltb a b = true) (whitelisted e).
Proof.
  intros He. apply elem_of_dumped_json in He as (i & Hi & Hn & Ha & Hw).
  apply list_elem_of_fmap in Hi as (s & -> & Hs).
  exists s. split; [done|]. rewrite Ha, Hw.
  split; [|split; [|split]]; try apply sorted_ids_ascending.
  - rewrite Hn. unfold filtered_of. by rewrite add_all_derivation.
  - rewrite !sorted_ids_perm. apply ids_partition.
    apply add_all_partitions, init_partitions.
Qed.

Lemma json_entry_lists_each_advisory_once_witness :
  ∃ s, s ∈ [(deriv1.1, deriv1.2,
             [Rule "*" None (Some {[ "CVE-2018-0004" ]}) None ∅ []])]
       ∧ "foo-1" = d_name s.1.1
       ∧ ["CVE-2018-0005"] ++ ["CVE-2018-0004"] ≡ₚ ids s.1.2
       ∧ StronglySorted (fun a b => String.ltb a b = true) ["CVE-2018-0005"]
       ∧ StronglySorted (fun a b => String.ltb a b = true) ["CVE-2018-0004"].
Proof.
  apply (json_entry_lists_each_advisory_once byte_order
           [(deriv1.1, deriv1.2,
             [Rule "*" None (Some {[ "CVE-2018-0004" ]}) None ∅ []])] false
           {| e_name := "foo-1"; e_pname := "foo"; e_version := Some "1";
              e_derivation := None;
              affected_by := ["CVE-2018-0005"]; whitelisted := ["CVE-2018-0004"];
              cvssv3_basescore := []; e_description := [] |}).
  vm_compute. by left.
Defined.

Lemma ltb_leb (a b : string) : String.ltb a b = true -> String.leb a b = true.
Proof. intros H. by apply ltb_spec in H as [? _]. Qed.

Lemma not_ltb_leb (a b : string) : String.ltb a b = false -> String.leb b a = true.
Proof.
  intros H. destruct (String.leb_total b a) as [Hba|Hab]; [done|].
  destruct (decide (a = b)) as [->|Hne].
  - by destruct (String.leb_total b b).
  - assert (String.ltb a b = true) by (by apply ltb_spec). congruence.
Qed.

Lemma leb_trans (a b c : string) :
  String.leb a b = true -> String.leb b c = true -> String.leb a c = true.
Proof.
  intros H1%Is_true_true H2%Is_true_true. apply Is_true_true.
  change (String.le a c). by transitivity b.
Qed.

Lemma ltb_asym (a b : string) : String.ltb a b = true -> String.ltb b a = false.
Proof.
  intros Hab. destruct (String.ltb b a) eqn:Hba; [|done].
  pose proof (ltb_trans _ _ _ Hab Hba) as Haa. by rewrite ltb_irrefl in Haa.
Qed.

Lemma ltb_negtrans (a b c : string) :
  String.ltb b a = false -> String.ltb c b = false -> String.ltb c a = false.
Proof.
  intros Hab%not_ltb_leb Hbc%not_ltb_leb.
  pose proof (leb_trans _ _ _ Hab Hbc) as Hac.
  destruct (String.ltb c a) eqn:E; [|done].
  apply ltb_spec in E as [Hca Hne]. destruct Hne.
  by apply String.leb_antisym.
Qed.

(** With an order of names in which [<] is asymmetric and "not less
    than" is transitive, the sorted derivations are in order. *)
Lemma by_derivation_sorted (o : Orders) (l : list Filtered) :
  (∀ a b, name_lt o a b = true -> name_lt o b a = false) ->
  (∀ a b c, name_lt o b a = false -> name_lt o c b = false -> name_lt o c a = false) ->
  StronglySorted
    (fun i j => name_lt o (d_name (derivation j)) (d_name (derivation i)) = false)
    (by_derivation o l).
Proof.
  intros Hasym Hneg.
  unfold by_derivation. induction l as [|x l IH]; simpl; [constructor|].
  revert IH. generalize (sorted derivation (derive_ltb o) l). clear l.
  induction 1 as [|y l Hl IH Hy]; simpl; [repeat constructor|].
  unfold derive_ltb at 1.
  destruct (name_lt o (d_name (derivation y)) (d_name (derivation x))) eqn:E.
  - constructor; [done|].
    rewrite insert_sorted_perm. constructor; [by apply Hasym|done].
  - constructor; [by constructor|]. constructor; [done|].
    eapply Forall_impl; [exact Hy|]. intros z Hz. by eapply Hneg.
Qed.

Lemma filter_perm {A} (p : A -> bool) (l l' : list A) :
  l ≡ₚ l' -> List.filter p l ≡ₚ List.filter p l'.
Proof.
  induction 1 as [|x l l' _ IH|x y l|l l' l'' _ IH1 _ IH2]; simpl.
  - done.
  - destruct (p x); by rewrite IH.
  - destruct (p x), (p y); try done. apply Permutation_swap.
  - by rewrite IH1.
Qed.

Lemma dumped_json_names (o : Orders) (items : list Filtered) (sw : bool) :
  map e_name (dumped (output_json o items sw))
  = map (fun i => d_name (derivation i))
        (List.filter (listed sw) (by_derivation o items)).
Proof.
  unfold output_json, dumped. simpl. rewrite app_nil_r.
  induction (by_derivation o items) as [|i l IH]; simpl; [done|].
  unfold listed at 1.
  destruct (set_truthy (report i)), sw; simpl; first [exact IH | f_equal; exact IH].
Qed.

(** X6.  The JSON report has one entry for each derivation with an
    active advisory, and with suppressed-visibility one for every
    derivation.  Take the order of names that [Derive] uses: when [<]
    is asymmetric in it and "not less than" is transitive, no entry has
    a name that is less than the name of an entry before it. *)
Theorem json_entries_listed_in_name_order
    (o : Orders) (items : list Filtered) (show_whitelisted : bool) :
  map e_name (dumped (output_json o items show_whitelisted))
  ≡ₚ map (fun i => d_name (derivation i)) (List.filter (listed show_whitelisted) items)
  ∧ ((∀ a b, name_lt o a b = true -> name_lt o b a = false) ->
     (∀ a b c, name_lt o b a = false -> name_lt o c b = false ->
               name_lt o c a = false) ->
     StronglySorted (fun a b => name_lt o b a = false)
                    (map e_name (dumped (output_json o items show_whitelisted)))).
Proof.
  rewrite dumped_json_names. split.
  - apply Permutation_map, filter_perm. unfold by_derivation. apply sorted_perm.
  - intros Hasym Hneg.
    pose proof (by_derivation_sorted o items Hasym Hneg) as Hs.
    induction Hs as [|i l Hl IH Hi]; simpl; [constructor|].
    destruct (listed show_whitelisted i); simpl; [|done].
    constructor; [done|].
    apply Forall_forall. intros n Hn.
    apply list_elem_of_In, in_map_iff in Hn as (j & <- & Hj).
    apply filter_In in Hj as [Hj _].
    apply (proj1 (Forall_forall _ _) Hi). by apply list_elem_of_In.
Qed.

Lemma json_entries_listed_in_name_order_witness :
  StronglySorted (fun a b => name_lt byte_order b a = false)
                 (map e_name (dumped (output_json byte_order wl_items true))).
Proof.
  apply (proj2 (json_entries_listed_in_name_order byte_order wl_items true)).
  - apply ltb_asym.
  - apply ltb_negtrans.
Defined.

(** X7.  The text report and the exit code agree.  The report opens
    with the line that counts the derivations with active advisories,
    unless there is none and suppressed-visibility is off: then it is
    one of the two single messages and the exit code is 0.  The exit code
    is 2 exactly when the count is not 0. *)
Theorem text_report_agrees_with_exit_code (o : Orders)
    (items : list Filtered) (show_whitelisted show_description : bool) :
  let n := length (List.filter (fun v => set_truthy (report v)) items) in
  let text := output_text o items show_whitelisted show_description in
  let code := (output o items false show_whitelisted show_description).2 in
  (code = 2 <-> (0 < n)%nat)
  ∧ (n = 0%nat -> show_whitelisted = false ->
     code = 0
     ∧ (text = [Secho msg_no_advisories (Some "green") false false]
        ∨ text = [Secho (msg_nothing_to_show (length items)) (Some "blue") false false]))
  ∧ ((0 < n)%nat ∨ show_whitelisted = true ->
     ∃ rest, text = count_line n :: rest).
Proof.
  intros n text code.
  assert (any (fun i => set_truthy (report i)) items = negb (Nat.eqb n 0)) as Hany.
  { subst n. unfold any. induction items as [|i l IH]; simpl; [done|].
    destruct (set_truthy (report i)); simpl; [done|apply IH]. }
  split; [|split].
  - subst code. simpl. rewrite Hany.
    destruct (Nat.eqb_spec n 0) as [->|Hn]; simpl.
    + split; [|lia]. by destruct (andb _ _).
    + split; [lia|done].
  - intros Hn ->. subst code. simpl. rewrite Hany, Hn. simpl. split; [done|].
    assert (Forall (fun i => report i = ∅) items) as Hall.
    { apply none_report. by rewrite Hany, Hn. }
    subst text. unfold output_text.
    rewrite (filter_none (fun v => set_truthy (report v)) items).
    2:{ eapply Forall_impl; [exact Hall|]. intros i. apply set_truthy_false. }
    rewrite (filter_all (fun v => negb (set_truthy (report v))) items).
    2:{ eapply Forall_impl; [exact Hall|]. intros i Hi.
        apply negb_true_iff. by apply set_truthy_false. }
    simpl. destruct items; [by left|by right].
  - intros Hn. subst text n. unfold output_text.
    destruct (List.filter (fun v => set_truthy (report v)) items) as [|i l] eqn:Ef;
      simpl in *.
    + destruct Hn as [Hn| ->]; [lia|]. simpl. by eexists.
    + by eexists.
Qed.

Lemma text_report_agrees_with_exit_code_witness :
  ∃ rest, output_text byte_order wl_items true false = count_line 2 :: rest.
Proof.
  apply (proj2 (proj2 (text_report_agrees_with_exit_code byte_order wl_items true false))).
  by right.
Defined.

(* ===================================================================== *)
(** * Store: what a run does to the store                                 *)
(* ===================================================================== *)

Section store_steps.

Context (from : Derive -> Prop).

Lemma grows_refl (st : Store) : grows_by from st st.
Proof. repeat split; auto. Qed.

Lemma grows_trans (a b c : Store) :
  grows_by from a b -> grows_by from b c -> grows_by from a c.
Proof.
  intros (Hr & Hc & Hf & Hs & Hn) (Hr' & Hc' & Hf' & Hs' & Hn').
  repeat split; try congruence; auto.
  - by transitivity (derivations b).
  - intros n d Hd. destruct (Hn' n d Hd) as [Hb|Hb]; auto.
Qed.

Lemma keeps_ret {A} (a : A) : keeps from (mret a).
Proof. intros st. apply grows_refl. Qed.

Lemma keeps_raise {A} (e : exn) : keeps from (@raise A e).
Proof. intros st. apply grows_refl. Qed.

Lemma keeps_lift {A} (r : Result A) : keeps from (lift r).
Proof. intros st. apply grows_refl. Qed.

Lemma keeps_self : keeps from self.
Proof. intros st. apply grows_refl. Qed.

Lemma keeps_bind {A B} (m : M A) (f : A -> M B) :
  keeps from m -> (∀ a, keeps from (f a)) -> keeps from (m ≫= f).
Proof.
  intros Hm Hf st. unfold mbind, M_bind.
  pose proof (Hm st) as H1. destruct (m st) as [[a|e] st']; [|done].
  eapply grows_trans; [exact H1|apply Hf].
Qed.

Lemma keeps_for_each {A} (l : list A) (f : A -> M unit) :
  (∀ a, keeps from (f a)) -> keeps from (for_each l f).
Proof.
  intros Hf. induction l as [|x l IH]; simpl; [apply keeps_ret|].
  apply keeps_bind; [apply Hf|by intros _].
Qed.

(** Filing one derivation that satisfies [from]. *)
Lemma grows_register (st : Store) (d : Derive) :
  from d ->
  grows_by from st
    {| requisites := requisites st; closure := closure st;
       derivations := derivations st ∪ {[ d_name d := d ]};
       experimental_flag_needed := experimental_flag_needed st |}.
Proof.
  intros Hd. repeat split; simpl; auto.
  - apply map_union_subseteq_l.
  - intros n x Hx. apply lookup_union_Some_raw in Hx as [Hx|[_ Hx]]; [by left|].
    apply lookup_singleton_Some in Hx as [<- <-]. by right.
Qed.

End store_steps.

Ltac keeps_steps leaf :=
  repeat first
    [ leaf
    | apply keeps_ret | apply keeps_raise | apply keeps_lift | apply keeps_self
    | apply keeps_bind; [|intros ?]
    | apply keeps_for_each; intros ?
    | case_match ].

Section store_methods.

Context (w : World).

Lemma probe_keeps : keeps (loaded_recipe w) (probe_experimental w).
Proof.
  intros st. unfold probe_experimental.
  destruct (experimental_flag_needed st) eqn:E; [apply grows_refl|].
  destruct (call w _); [|apply grows_refl].
  repeat split; simpl; auto. by rewrite E.
Qed.

Lemma _call_nix_keeps (args : list string) : keeps (loaded_recipe w) (_call_nix w args).
Proof. unfold _call_nix. apply keeps_bind; [apply probe_keeps|]. intros. apply keeps_lift. Qed.

Lemma _find_deriver_keeps (path qpi : option string) :
  keeps (loaded_recipe w) (_find_deriver w path qpi).
Proof.
  unfold _find_deriver. keeps_steps ltac:(apply _call_nix_keeps).
Qed.

Lemma _find_outputs_keeps (path : string) : keeps (loaded_recipe w) (_find_outputs w path).
Proof.
  unfold _find_outputs. keeps_steps ltac:(apply _call_nix_keeps).
Qed.

Lemma update_keeps (drv_path : option string) : keeps (loaded_recipe w) (update w drv_path).
Proof.
  unfold update. destruct drv_path as [p|]; [|apply keeps_ret].
  destruct (orb _ _) eqn:E; [apply keeps_ret|].
  intros st. destruct (load w p) as [d|e] eqn:El.
  - apply grows_register. exists p. split; [|done].
    apply orb_false_iff in E as [_ E]. by apply negb_false_iff in E.
  - destruct e; apply grows_refl.
Qed.

Lemma add_path_info_keeps (data : json) : keeps (loaded_recipe w) (add_path_info w data).
Proof.
  unfold add_path_info.
  keeps_steps ltac:(first [apply _find_deriver_keeps | apply update_keeps]).
Qed.

Lemma add_path_keeps (path : string) : keeps (loaded_recipe w) (add_path w path).
Proof.
  unfold add_path.
  keeps_steps
    ltac:(first [ apply _find_deriver_keeps | apply update_keeps
                | apply _find_outputs_keeps | apply _call_nix_keeps
                | apply add_path_info_keeps | apply probe_keeps ]).
Qed.

Lemma add_element_keeps (element : json) : keeps (loaded_recipe w) (add_element w element).
Proof. unfold add_element. keeps_steps ltac:(apply add_path_keeps). Qed.

Lemma add_profile_keeps (profile : string) : keeps (loaded_recipe w) (add_profile w profile).
Proof.
  unfold add_profile.
  keeps_steps ltac:(first [apply add_element_keeps | apply add_path_keeps]).
Qed.

Lemma add_gc_roots_keeps : keeps (loaded_recipe w) (add_gc_roots w).
Proof. unfold add_gc_roots. keeps_steps ltac:(apply update_keeps). Qed.

End store_methods.

Lemma load_pkgs_json_keeps (derive_new : string -> string -> Result Derive)
    (loaded : Result json) :
  keeps (constructed derive_new) (load_pkgs_json derive_new loaded).
Proof.
  unfold load_pkgs_json.
  apply keeps_bind; [apply keeps_lift|]. intros data.
  apply keeps_bind; [apply keeps_lift|]. intros pkgs.
  apply keeps_for_each. intros pkg st. unfold add_pkg.
  destruct (pkg_derive derive_new pkg) as [d|e] eqn:E.
  - apply grows_register. unfold pkg_derive in E.
    repeat (case_match; simplify_eq/=); by eexists _, _.
  - destruct e; apply grows_refl.
Qed.

(** X8.  Ingesting a path, a profile, the live roots or a package feed
    never changes the two modes of the store and never drops or replaces
    a derivation it holds, whether the run returns or raises. *)
Theorem store_runs_only_add
    (w : World) (derive_new : string -> string -> Result Derive) (loaded : Result json)
    (st : Store) (path profile : string) :
  Forall (fun st' => requisites st' = requisites st ∧ closure st' = closure st
                     ∧ derivations st ⊆ derivations st')
         [ (add_path w path st).2; (add_profile w profile st).2;
           (add_gc_roots w st).2; (load_pkgs_json derive_new loaded st).2 ].
Proof.
  assert (∀ from st', grows_by from st st' ->
            requisites st' = requisites st ∧ closure st' = closure st
            ∧ derivations st ⊆ derivations st') as Hg.
  { intros from st' (Hr & Hc & _ & Hs & _). auto. }
  constructor; [eapply Hg, add_path_keeps|].
  constructor; [eapply Hg, add_profile_keeps|].
  constructor; [eapply Hg, add_gc_roots_keeps|].
  constructor; [eapply Hg, load_pkgs_json_keeps|constructor].
Qed.

(** X9.  Whatever a path, a profile or the live roots are ingested into
    the store, each derivation that is new in it was loaded from a path
    with the recipe suffix and is filed under its own name. *)
Theorem store_registers_loaded_recipes_only
    (w : World) (st : Store) (path profile : string) (n : string) (d : Derive) :
  Forall (fun st' => derivations st' !! n = Some d ->
                     derivations st !! n = Some d
                     ∨ (d_name d = n
                        ∧ ∃ p, endswith p ".drv" = true ∧ load w p = Ok d))
         [ (add_path w path st).2; (add_profile w profile st).2; (add_gc_roots w st).2 ].
Proof.
  assert (∀ st', grows_by (loaded_recipe w) st st' ->
                 derivations st' !! n = Some d ->
                 derivations st !! n = Some d
                 ∨ (d_name d = n ∧ ∃ p, endswith p ".drv" = true ∧ load w p = Ok d))
    as Hg.
  { intros st' (_ & _ & _ & _ & Hn) Hd. destruct (Hn n d Hd) as [?|[? ?]]; auto. }
  constructor; [apply Hg, add_path_keeps|].
  constructor; [apply Hg, add_profile_keeps|].
  constructor; [apply Hg, add_gc_roots_keeps|constructor].
Qed.

Lemma store_registers_loaded_recipes_only_witness :
  d_name (Drv "foo-1" "foo" (Some "1") None) = "foo-1"
  ∧ ∃ p, endswith p ".drv" = true
         ∧ load (demo_world "list") p = Ok (Drv "foo-1" "foo" (Some "1") None).
Proof.
  pose proof (store_registers_loaded_recipes_only (demo_world "list")
                (Store_init true true) "/nix/store/aaa-foo-1"
                "/nix/var/nix/profiles/default" "foo-1"
                (Drv "foo-1" "foo" (Some "1") None)) as H.
  apply Forall_cons in H as [H _].
  destruct (H ltac:(by vm_compute)) as [H'|H']; [|exact H'].
  by vm_compute in H'.
Defined.

(* ===================================================================== *)
(** * Store: the probe is made once                                       *)
(* ===================================================================== *)

Lemma known_bind {A B} (from : Derive -> Prop) (m1 m2 : M A) (f1 f2 : A -> M B) :
  same_known m1 m2 -> keeps from m1 -> (∀ a, same_known (f1 a) (f2 a)) ->
  same_known (m1 ≫= f1) (m2 ≫= f2).
Proof.
  intros Hm Hk Hf st Hst. unfold mbind, M_bind. rewrite <- (Hm st Hst).
  pose proof (Hk st) as (_ & _ & Hflag & _).
  destruct (m1 st) as [[a|e] st']; [|done].
  apply Hf. destruct Hst as [b Hb]. exists b. by apply Hflag.
Qed.

Lemma known_for_each {A} (from : Derive -> Prop) (l : list A) (f1 f2 : A -> M unit) :
  (∀ a, same_known (f1 a) (f2 a)) -> (∀ a, keeps from (f1 a)) ->
  same_known (for_each l f1) (for_each l f2).
Proof.
  intros Hf Hk. induction l as [|x l IH]; simpl; [done|].
  apply (known_bind from); [apply Hf|apply Hk|by intros _].
Qed.

Lemma known_of_same {A} (m1 m2 : M A) : same_run m1 m2 -> same_known m1 m2.
Proof. intros H st _. apply H. Qed.

Section probed_once.

Context (w w' : World) (Hw : same_but_help w w').

Lemma help_exists (p : string) : path_exists w p = path_exists w' p.
Proof. apply Hw. Qed.

Lemma help_call (args : list string) :
  args <> ["nix"; "--help"] -> call w args = call w' args.
Proof. apply Hw. Qed.

Lemma _call_nix_known (args : list string) :
  args <> ["--help"] -> same_known (_call_nix w args) (_call_nix w' args).
Proof.
  intros Ha st [b Hb]. unfold _call_nix, mbind, M_bind, probe_experimental, lift.
  rewrite Hb. f_equal. apply help_call. destruct b; simpl; congruence.
Qed.

Lemma update_help_same (drv_path : option string) :
  same_run (update w drv_path) (update w' drv_path).
Proof.
  intros st. unfold update.
  destruct drv_path as [p|]; [|done]. destruct (orb _ _); [done|].
  by rewrite (proj1 (proj2 (proj2 (proj2 Hw)))).
Qed.

Lemma update_known (drv_path : option string) :
  same_known (update w drv_path) (update w' drv_path).
Proof. apply known_of_same, update_help_same. Qed.

Lemma _find_deriver_known (path qpi : option string) :
  same_known (_find_deriver w path qpi) (_find_deriver w' path qpi).
Proof.
  unfold _find_deriver.
  destruct (orb _ _); [done|]. destruct (endswith _ _); [done|].
  apply (known_bind (loaded_recipe w)).
  - apply known_of_same. destruct (bool_decide _); [|done].
    apply bind_same; [|done]. apply lift_same, help_call. done.
  - keeps_steps fail.
  - intros qpi'. rewrite help_exists.
    destruct (andb (str_truthy qpi') _); [done|].
    apply (known_bind (loaded_recipe w));
      [by apply _call_nix_known|apply _call_nix_keeps|]. intros text.
    apply known_of_same.
    apply bind_same; [apply lift_same, Hw|]. intros shown.
    apply bind_same; [done|]. intros qvd. by rewrite help_exists.
Qed.

Lemma _find_outputs_known (path : string) :
  same_known (_find_outputs w path) (_find_outputs w' path).
Proof.
  unfold _find_outputs. destruct (negb _); [done|].
  apply (known_bind (loaded_recipe w));
    [by apply _call_nix_known|apply _call_nix_keeps|]. intros text.
  apply known_of_same. apply bind_same; [apply lift_same, Hw|]. done.
Qed.

Lemma register_known (path drv : option string) :
  same_known (_find_deriver w path drv ≫= update w)
             (_find_deriver w' path drv ≫= update w').
Proof.
  apply (known_bind (loaded_recipe w));
    [apply _find_deriver_known|apply _find_deriver_keeps|apply update_known].
Qed.

Lemma register_keeps (path drv : option string) :
  keeps (loaded_recipe w) (_find_deriver w path drv ≫= update w).
Proof. apply keeps_bind; [apply _find_deriver_keeps|apply update_keeps]. Qed.

Lemma add_path_info_known (data : json) :
  same_known (add_path_info w data) (add_path_info w' data).
Proof.
  unfold add_path_info. destruct (negb _); [done|].
  destruct data; try done.
  - apply (known_for_each (loaded_recipe w)).
    + intros info.
      apply (known_bind (loaded_recipe w)); [done|apply keeps_lift|]. intros outpath.
      apply (known_bind (loaded_recipe w)); [done|apply keeps_lift|]. intros drv.
      apply register_known.
    + intros info. keeps_steps ltac:(apply register_keeps).
  - apply (known_for_each (loaded_recipe w)).
    + intros item.
      apply (known_bind (loaded_recipe w)); [done|apply keeps_lift|]. intros drv.
      apply register_known.
    + intros item. keeps_steps ltac:(apply register_keeps).
Qed.

Lemma add_path_known (path : string) :
  same_known (add_path w path) (add_path w' path).
Proof.
  unfold add_path. rewrite help_exists. destruct (negb _); [done|].
  apply (known_bind (loaded_recipe w)); [done|apply keeps_self|]. intros st0.
  destruct (closure st0).
  - apply (known_bind (loaded_recipe w));
      [apply _find_outputs_known|apply _find_outputs_keeps|]. intros outputs.
    apply (known_for_each (loaded_recipe w)).
    + intros [o|].
      * apply (known_bind (loaded_recipe w));
          [by apply _call_nix_known|apply _call_nix_keeps|]. intros text.
        apply (known_bind (loaded_recipe w)).
        -- apply known_of_same, lift_same, Hw.
        -- apply keeps_lift.
        -- apply add_path_info_known.
      * intros st [b Hb]. unfold mbind, M_bind, probe_experimental. by rewrite Hb.
    + intros output.
      keeps_steps ltac:(first [apply _call_nix_keeps | apply add_path_info_keeps
                              | apply probe_keeps]).
  - apply (known_bind (loaded_recipe w));
      [apply _find_deriver_known|apply _find_deriver_keeps|]. intros deriver.
    destruct (requisites st0); [|apply update_known].
    destruct deriver as [d|]; [|done].
    apply known_of_same. apply bind_same.
    + apply lift_same, help_call. done.
    + intros out. apply for_each_same_list. intros c. apply update_help_same.
Qed.

Lemma add_element_known (element : json) :
  same_known (add_element w element) (add_element w' element).
Proof.
  unfold add_element.
  apply (known_bind (loaded_recipe w)); [done|apply keeps_lift|]. intros active.
  destruct (negb _); [done|].
  apply (known_bind (loaded_recipe w)); [done|apply keeps_lift|]. intros store_paths.
  apply (known_bind (loaded_recipe w)); [done|apply keeps_lift|]. intros paths.
  apply (known_for_each (loaded_recipe w)).
  - intros path.
    apply (known_bind (loaded_recipe w)); [done|apply keeps_lift|]. intros p.
    apply add_path_known.
  - intros path. keeps_steps ltac:(apply add_path_keeps).
Qed.

Lemma add_profile_known (profile : string) :
  same_known (add_profile w profile) (add_profile w' profile).
Proof.
  unfold add_profile. rewrite help_exists. destruct (path_exists w' _).
  - apply (known_bind (loaded_recipe w)).
    + apply known_of_same, lift_same, Hw.
    + apply keeps_lift.
    + intros manifest.
      apply (known_bind (loaded_recipe w)); [done|apply keeps_lift|]. intros elements.
      apply (known_bind (loaded_recipe w)).
      * destruct elements; try done.
        apply (known_for_each (loaded_recipe w)).
        -- intros name.
           apply (known_bind (loaded_recipe w)); [done|apply keeps_lift|]. intros e.
           apply add_element_known.
        -- intros name. keeps_steps ltac:(apply add_element_keeps).
      * keeps_steps ltac:(apply add_element_keeps).
      * intros _. destruct elements; try done.
        apply (known_for_each (loaded_recipe w)).
        -- apply add_element_known.
        -- apply add_element_keeps.
  - apply (known_bind (loaded_recipe w)).
    + apply known_of_same, lift_same, help_call. done.
    + apply keeps_lift.
    + intros out. apply (known_for_each (loaded_recipe w)).
      * intros line.
        apply (known_bind (loaded_recipe w)); [done|apply keeps_lift|]. intros p.
        apply add_path_known.
      * intros line. keeps_steps ltac:(apply add_path_keeps).
Qed.

End probed_once.

(** X10.  The tool is probed once.  On a store that knows the answer of
    the probe, ingesting a path or a profile keeps that answer and does
    not depend on the help text of the tool: a world that differs in the
    help text only gives the same run. *)
Theorem probe_is_made_once (w w' : World) (st : Store) (path profile : string) :
  same_but_help w w' ->
  is_Some (experimental_flag_needed st) ->
  add_path w path st = add_path w' path st
  ∧ add_profile w profile st = add_profile w' profile st
  ∧ experimental_flag_needed (add_path w path st).2 = experimental_flag_needed st
  ∧ experimental_flag_needed (add_profile w profile st).2 = experimental_flag_needed st.
Proof.
  intros Hw [b Hb].
  split; [apply (add_path_known w w' Hw); by exists b|].
  split; [apply (add_profile_known w w' Hw); by exists b|].
  rewrite Hb. split.
  - by apply (add_path_keeps w path st).
  - by apply (add_profile_keeps w profile st).
Qed.

Lemma probe_is_made_once_witness :
  let w' := {| call := fun args =>
                 if bool_decide (args = ["nix"; "--help"])
                 then Ok "--experimental-features"
                 else call (demo_world "list") args;
               path_exists := path_exists (demo_world "list");
               json_loads := json_loads (demo_world "list");
               json_load_file := json_load_file (demo_world "list");
               load := load (demo_world "list") |} in
  let st := {| requisites := true; closure := true; derivations := ∅;
               experimental_flag_needed := Some false |} in
  add_path (demo_world "list") "/nix/store/aaa-foo-1" st
  = add_path w' "/nix/store/aaa-foo-1" st.
Proof.
  intros w' st.
  refine (proj1 (probe_is_made_once (demo_world "list") w' st
                   "/nix/store/aaa-foo-1" "/nix/var/nix/profiles/default" _ _)).
  - repeat split; try done.
    intros args Ha. simpl. by rewrite bool_decide_false.
  - by exists false.
Defined.

(* ===================================================================== *)
(** * Store: registration                                                 *)
(* ===================================================================== *)

Lemma store_eta (st : Store) (ds : gmap string Derive) :
  ds = derivations st ->
  {| requisites := requisites st; closure := closure st; derivations := ds;
     experimental_flag_needed := experimental_flag_needed st |} = st.
Proof. intros ->. by destruct st. Qed.

(** X11.  Registering what is registered changes nothing: when the
    store holds the derivation that [load] returns for the path,
    [update] leaves the store as it is, so calling [update] twice with a
    path is calling it once.  A candidate that is absent, empty or lacks
    the recipe suffix is ignored. *)
Theorem update_registers_once (w : World) (drv_path : option string) (st : Store) :
  (∀ p d, drv_path = Some p -> load w p = Ok d ->
          derivations st !! d_name d = Some d ->
          update w drv_path st = (Ok tt, st))
  ∧ update w drv_path (update w drv_path st).2 = update w drv_path st
  ∧ (opt_str_truthy drv_path = false ∨ endswith (default EmptyString drv_path) ".drv" = false ->
     update w drv_path st = (Ok tt, st)).
Proof.
  assert (∀ p d st0, load w p = Ok d -> is_Some (derivations st0 !! d_name d) ->
                     update w (Some p) st0 = (Ok tt, st0)) as Hheld.
  { intros p d st0 Hl [x Hx]. unfold update.
    destruct (orb _ _); [done|]. rewrite Hl. f_equal. apply store_eta.
    apply map_eq. intros k. rewrite lookup_union.
    destruct (decide (k = d_name d)) as [->|Hne].
    - by rewrite Hx, lookup_singleton_eq.
    - rewrite lookup_singleton_ne by done. by destruct (derivations st0 !! k). }
  split; [|split].
  - intros p d -> Hl Hin. apply (Hheld p d); [done|]. by exists d.
  - destruct drv_path as [p|]; [|done].
    destruct (load w p) as [d|e] eqn:Hl.
    + unfold update at 2 3. destruct (orb _ _) eqn:Hg.
      * unfold update. by rewrite Hg.
      * rewrite Hl. simpl. rewrite (Hheld p d); [done..|]. simpl.
        rewrite lookup_union, lookup_singleton_eq.
        by destruct (derivations st !! d_name d).
    + unfold update. destruct (orb _ _); [done|]. rewrite Hl.
      destruct e; simpl; by rewrite ?Hl.
  - unfold update. destruct drv_path as [p|]; [|done]. simpl.
    intros [Hp|Hp]; [by rewrite Hp|]. rewrite Hp. by rewrite orb_true_r.
Qed.

Lemma update_registers_once_witness :
  let w := demo_world "list" in
  let st := (update w (Some "/nix/store/bbb-foo-1.drv") (Store_init true true)).2 in
  update w (Some "/nix/store/bbb-foo-1.drv") st = (Ok tt, st)
  ∧ update w (Some "/nix/store/aaa-foo-1") st = (Ok tt, st).
Proof.
  intros w st. split.
  - apply (proj1 (update_registers_once w (Some "/nix/store/bbb-foo-1.drv") st)
             "/nix/store/bbb-foo-1.drv" (Drv "foo-1" "foo" (Some "1") None));
      [done|done|]. by vm_compute.
  - apply (proj2 (proj2 (update_registers_once w (Some "/nix/store/aaa-foo-1") st))).
    by right.
Defined.

(* ===================================================================== *)
(** * Store: deriver resolution, further                                  *)
(* ===================================================================== *)

(** X12.  A deriver that [_find_deriver] returns is the path itself,
    which then has the recipe suffix, or it is a non-empty path that
    exists. *)
Theorem find_deriver_returns_existing
    (w : World) (path qpi_deriver : option string) (st st' : Store) (d : string) :
  _find_deriver w path qpi_deriver st = (Ok (Some d), st') ->
  (path = Some d ∧ endswith d ".drv" = true)
  ∨ (str_truthy d = true ∧ path_exists w d = true).
Proof.
  unfold _find_deriver, _call_nix, mbind, M_bind, mret, M_ret, lift, raise.
  intros H.
  repeat (case_match; simplify_eq/=);
    repeat match goal with
      | H : andb _ _ = true |- _ => apply andb_true_iff in H as [? ?]
      | H : orb _ _ = false |- _ => apply orb_false_iff in H as [? ?]
      | H : negb _ = false |- _ => apply negb_false_iff in H
      end;
    try (by right);
    left; (split; [|done]);
    destruct path as [p|]; simpl in *; congruence.
Qed.

Lemma find_deriver_returns_existing_witness :
  ("/nix/store/bbb-foo-1.drv" = "/nix/store/bbb-foo-1.drv"
   ∧ endswith "/nix/store/bbb-foo-1.drv" ".drv" = true)
  ∨ (str_truthy "/nix/store/bbb-foo-1.drv" = true
     ∧ path_exists (demo_world "list") "/nix/store/bbb-foo-1.drv" = true).
Proof.
  destruct (find_deriver_returns_existing (demo_world "list")
              (Some "/nix/store/aaa-foo-1") (Some "/nix/store/bbb-foo-1.drv")
              (Store_init true true) (Store_init true true)
              "/nix/store/bbb-foo-1.drv" eq_refl) as [[H _]|H].
  - discriminate H.
  - right. exact H.
Defined.

Lemma append_assoc (a b c : string) : (a +:+ b) +:+ c = a +:+ b +:+ c.
Proof.
  induction a as [|x a IH]; [done|].
  change (String x ((a +:+ b) +:+ c) = String x (a +:+ b +:+ c)). by rewrite IH.
Qed.

(** X13.  When the deriver candidate of the path's metadata and the
    candidate of the recipe description are two different paths and
    neither exists, [_find_deriver] raises one error that names both
    candidates and the path. *)
Theorem find_deriver_names_candidates
    (w : World) (p q qpi qvd text : string) (shown : json) (flag : bool) (st st' : Store) :
  str_truthy p = true -> str_truthy q = true -> endswith p ".drv" = false ->
  queried_deriver w p q = Ok qpi ->
  str_truthy qpi = true -> qpi <> "unknown-deriver" -> path_exists w qpi = false ->
  probe_experimental w st = (Ok flag, st') ->
  call w (nix_command flag ["show-derivation"; p]) = Ok text ->
  json_loads w text = Ok shown -> first_key shown = Ok qvd ->
  str_truthy qvd = true -> qvd <> qpi -> path_exists w qvd = false ->
  _find_deriver w (Some p) (Some q) st
  = (Raise (RuntimeError
              ["Deriver `" +:+ qpi +:+ "` does not exist.  "
               +:+ "Deriver `" +:+ qvd +:+ "` does not exist.  "
               +:+ "Couldn't find deriver for path `" +:+ p +:+ "`"]), st').
Proof.
  intros Hp Hq Hdrv Hqpi Hqt Hqs Hqe Hprobe Hcall Hloads Hkey Hvt Hvq Hve.
  unfold _find_deriver. simpl. rewrite Hp, Hq, Hdrv. simpl.
  unfold queried_deriver in Hqpi.
  assert (String.eqb qpi "unknown-deriver" = false) as E1
    by (by destruct (String.eqb_spec qpi "unknown-deriver")).
  assert (String.eqb qvd qpi = false) as E2 by (by destruct (String.eqb_spec qvd qpi)).
  assert (andb (str_truthy qpi)
               (andb (negb (String.eqb qpi "unknown-deriver")) (path_exists w qpi))
          = false) as H1 by (by rewrite Hqt, E1, Hqe).
  assert (andb (str_truthy qvd) (path_exists w qvd) = false) as H2
    by (by rewrite Hvt, Hve).
  assert (andb (str_truthy qpi) (negb (String.eqb qpi "unknown-deriver")) = true)
    as H3 by (by rewrite Hqt, E1).
  assert (andb (str_truthy qvd) (negb (String.eqb qvd qpi)) = true) as H4
    by (by rewrite Hvt, E2).
  unfold _call_nix, mbind, M_bind, mret, M_ret, lift, raise.
  destruct (decide (q = "undef")) as [->|Hne].
  - rewrite bool_decide_true in Hqpi by done. rewrite bool_decide_true by done.
    destruct (call w ["nix-store"; "-qd"; p]) as [s|e]; [|done].
    injection Hqpi as ->.
    rewrite H1, Hprobe, Hcall, Hloads, Hkey, H2, H3, H4.
    change (EmptyString +:+ ?x) with x. by rewrite !append_assoc.
  - rewrite bool_decide_false in Hqpi by done.
    rewrite bool_decide_false by congruence.
    injection Hqpi as ->.
    rewrite H1, Hprobe, Hcall, Hloads, Hkey, H2, H3, H4.
    change (EmptyString +:+ ?x) with x. by rewrite !append_assoc.
Qed.

Lemma find_deriver_names_candidates_witness :
  _find_deriver stale_world (Some "/nix/store/ddd-bar-2") (Some "undef")
                (Store_init true false)
  = (Raise (RuntimeError
              ["Deriver `" +:+ "/gone/ddd-bar-2.drv" +:+ "` does not exist.  "
               +:+ "Deriver `" +:+ "/gone/eee-bar-2.drv" +:+ "` does not exist.  "
               +:+ "Couldn't find deriver for path `" +:+ "/nix/store/ddd-bar-2" +:+ "`"]),
     {| requisites := true; closure := false; derivations := ∅;
        experimental_flag_needed := Some false |}).
Proof.
  apply (find_deriver_names_candidates stale_world
           "/nix/store/ddd-bar-2" "undef" "/gone/ddd-bar-2.drv" "/gone/eee-bar-2.drv"
           "show ddd-bar-2" (JDict [("/gone/eee-bar-2.drv", JNull)]) false);
    try reflexivity; discriminate.
Defined.

(* ===================================================================== *)
(** * Store: profiles and package feeds                                   *)
(* ===================================================================== *)

Lemma for_each_app {A} (a b : list A) (f : A -> M unit) :
  same_run (for_each (a ++ b) f) (for_each a f ≫= fun _ => for_each b f).
Proof.
  intros st. revert st. induction a as [|x a IH]; intros st; simpl; [done|].
  unfold mbind, M_bind in *.
  destruct (f x st) as [[[]|e] st']; [apply IH|done].
Qed.

Lemma for_each_paths (w : World) (ps : list string) :
  same_run (for_each (map JStr ps) (fun path => p ← lift (as_str path); add_path w p))
           (for_each ps (add_path w)).
Proof.
  apply (for_each_same _ _ (fun j p => j = JStr p)).
  - induction ps; by constructor.
  - by intros j p ->.
Qed.

Lemma add_element_spec (w : World) (element : json) (spec : bool * list string) :
  element_of element spec ->
  same_run (add_element w element)
           (if spec.1 then for_each spec.2 (add_path w) else mret tt).
Proof.
  intros [Ha Hp] st. unfold add_element, mbind, M_bind, lift.
  rewrite Ha. cbn [json_truthy]. destruct spec.1; cbn [negb]; [|done].
  rewrite Hp. cbn [iterate]. apply for_each_paths.
Qed.

(** X14.  For a profile with a manifest whose elements are a list,
    [add_profile] ingests the store paths of the active elements, in the
    order of the manifest, and nothing of the inactive ones. *)
Theorem add_profile_ingests_active_paths
    (w : World) (profile : string) (manifest : json) (elements : list json)
    (specs : list (bool * list string)) (st : Store) :
  path_exists w (path_join profile "manifest.json") = true ->
  json_load_file w (path_join profile "manifest.json") = Ok manifest ->
  subscript manifest "elements" = Ok (JList elements) ->
  Forall2 element_of elements specs ->
  add_profile w profile st = for_each (active_paths specs) (add_path w) st.
Proof.
  intros He Hm Hs Hel. unfold add_profile. rewrite He.
  unfold mbind at 1 2 3, M_bind at 1 2 3, lift at 1 2. rewrite Hm, Hs. simpl.
  clear Hs. unfold active_paths. revert st.
  induction Hel as [|e [a ps] els specs Hes _ IH]; intros st; simpl; [done|].
  unfold mbind, M_bind. rewrite (add_element_spec w e (a, ps) Hes). simpl.
  destruct a; simpl.
  - rewrite (for_each_app ps _ (add_path w)). unfold mbind, M_bind.
    destruct (for_each ps (add_path w) st) as [[[]|ex] st']; [apply IH|done].
  - apply IH.
Qed.

Lemma pkg_derive_of (derive_new : string -> string -> Result Derive) (pkg : json)
    (name : string) (patches : list string) (known : option (list string)) :
  pkg_of pkg name patches known ->
  pkg_derive derive_new pkg = derive_new name (join_space (patches ++ default [] known)).
Proof.
  intros (kv & -> & Hn & Hp & Hk). unfold pkg_derive. simpl. rewrite Hp, Hk, Hn.
  assert (∀ l, collect (map JStr l) as_str = Ok l) as Hc.
  { induction l as [|x l IH]; simpl; [done|]. by rewrite IH. }
  destruct known as [l|]; simpl.
  - by rewrite <- map_app, Hc.
  - by rewrite Hc, app_nil_r.
Qed.

Lemma load_pkgs_json_app (derive_new : string -> string -> Result Derive)
    (a b : list (string * json)) (st : Store) :
  load_pkgs_json derive_new (Ok (JDict (a ++ b))) st
  = (for_each (map snd a) (add_pkg derive_new) ≫= fun _ =>
     for_each (map snd b) (add_pkg derive_new)) st.
Proof.
  unfold load_pkgs_json, mbind at 1 2, M_bind at 1 2, lift. simpl.
  rewrite map_app. apply for_each_app.
Qed.

(** X15.  A package of the feed for which the constructor signals to
    skip it is left out, and the feed is loaded as if the package were
    not in it; the constructor gets the name and the patches followed by
    the known vulnerabilities, joined by spaces. *)
Theorem load_pkgs_json_skips_package
    (derive_new : string -> string -> Result Derive)
    (before after : list (string * json)) (key : string) (pkg : json)
    (name : string) (patches : list string) (known : option (list string))
    (st : Store) :
  pkg_of pkg name patches known ->
  derive_new name (join_space (patches ++ default [] known)) = Raise SkipDrv ->
  load_pkgs_json derive_new (Ok (JDict (before ++ (key, pkg) :: after))) st
  = load_pkgs_json derive_new (Ok (JDict (before ++ after))) st.
Proof.
  intros Hpkg Hskip. rewrite !load_pkgs_json_app. unfold mbind, M_bind.
  destruct (for_each (map snd before) (add_pkg derive_new) st) as [[[]|e] st']; [|done].
  simpl. unfold mbind, M_bind, add_pkg at 1.
  by rewrite (pkg_derive_of _ _ _ _ _ Hpkg), Hskip.
Qed.

Lemma load_pkgs_json_skips_package_witness :
  let good := JDict [("name", JStr "foo-1"); ("patches", JList [])] in
  let odd := JDict [("name", JStr "unversioned");
                    ("patches", JList [JStr "CVE-2018-0001.patch"]);
                    ("known_vulnerabilities", JList [JStr "CVE-2018-0002"])] in
  load_pkgs_json demo_derive (Ok (JDict ([("foo", good)] ++ ("odd", odd) :: [])))
                 (Store_init true false)
  = load_pkgs_json demo_derive (Ok (JDict ([("foo", good)] ++ []))) (Store_init true false).
Proof.
  intros good odd.
  apply (load_pkgs_json_skips_package demo_derive [("foo", good)] [] "odd" odd
           "unversioned" ["CVE-2018-0001.patch"] (Some ["CVE-2018-0002"])).
  - by eexists.
  - reflexivity.
Defined.

(** X16.  A package of the feed without a [patches] field is no skip
    signal: the load raises [KeyError] there, keeps the packages loaded
    before it and reaches none after it. *)
Theorem load_pkgs_json_stops_at_missing_patches
    (derive_new : string -> string -> Result Derive)
    (before after : list (string * json)) (key : string) (fields : list (string * json))
    (st : Store) :
  assoc "patches" fields = None ->
  load_pkgs_json derive_new (Ok (JDict (before ++ (key, JDict fields) :: after))) st
  = match load_pkgs_json derive_new (Ok (JDict before)) st with
    | (Ok _, st') => (Raise (PyError "KeyError"), st')
    | failed => failed
    end.
Proof.
  intros Hp. rewrite load_pkgs_json_app.
  unfold load_pkgs_json at 1, mbind, M_bind, lift. simpl.
  destruct (for_each (map snd before) (add_pkg derive_new) st) as [[[]|e] st']; [|done].
  unfold add_pkg, pkg_derive. simpl. by rewrite Hp.
Qed.

Lemma load_pkgs_json_stops_at_missing_patches_witness :
  let good := JDict [("name", JStr "foo-1"); ("patches", JList [])] in
  load_pkgs_json demo_derive
    (Ok (JDict ([("foo", good)] ++ ("bad", JDict [("name", JStr "bar-2")])
                   :: [("baz", good)])))
    (Store_init true false)
  = (Raise (PyError "KeyError"),
     {| requisites := true; closure := false;
        derivations := {[ "foo-1" := Drv "foo-1" "foo-1" None None ]};
        experimental_flag_needed := None |}).
Proof.
  intros good.
  rewrite (load_pkgs_json_stops_at_missing_patches demo_derive
             [("foo", good)] [("baz", good)] "bad" [("name", JStr "bar-2")]);
    [|reflexivity].
  by vm_compute.
Defined.

Lemma add_profile_ingests_active_paths_witness :
  add_profile profile_world "/profiles/me" (Store_init true true)
  = for_each ["/nix/store/aaa-foo-1"] (add_path profile_world) (Store_init true true).
Proof.
  apply (add_profile_ingests_active_paths profile_world "/profiles/me"
           demo_manifest demo_elements
           [(true, ["/nix/store/aaa-foo-1"]); (false, ["/nix/store/ccc-src"])]);
    try reflexivity.
  repeat constructor.
Defined.

(* ===================================================================== *)
(** * Rendering one advisory                                              *)
(* ===================================================================== *)

Lemma append_nil_r (s : string) : s +:+ EmptyString = s.
Proof.
  induction s as [|x s IH]; [done|].
  change (String x (s +:+ EmptyString) = String x s). by rewrite IH.
Qed.

Lemma rev_app_spec (a b : string) : String.rev_app a b = String.rev a +:+ b.
Proof.
  unfold String.rev. revert b. induction a as [|x a IH]; intros b; simpl; [done|].
  rewrite (IH (String x b)), (IH (String x EmptyString)). by rewrite append_assoc.
Qed.

Lemma rev_cons (x : ascii) (s : string) :
  String.rev (String x s) = String.rev s +:+ String x EmptyString.
Proof. unfold String.rev at 1. simpl. apply rev_app_spec. Qed.

Lemma rev_append (a b : string) : String.rev (a +:+ b) = String.rev b +:+ String.rev a.
Proof.
  induction a as [|x a IH].
  - change (String.rev b = String.rev b +:+ EmptyString). by rewrite append_nil_r.
  - change (String.rev (String x (a +:+ b))
            = String.rev b +:+ String.rev (String x a)).
    by rewrite !rev_cons, IH, append_assoc.
Qed.

Lemma rev_involutive (s : string) : String.rev (String.rev s) = s.
Proof.
  induction s as [|x s IH]; [done|].
  by rewrite rev_cons, rev_append, IH.
Qed.

Lemma lstrip_head (s : string) :
  match lstrip s with
  | String c _ => py_isspace c = false
  | EmptyString => True
  end.
Proof.
  induction s as [|x s IH]; simpl; [done|].
  destruct (py_isspace x) eqn:E; [done|]. by simpl.
Qed.

Lemma lstrip_append (u v : string) :
  lstrip (u +:+ v)
  = match lstrip u with
    | EmptyString => lstrip v
    | _ => lstrip u +:+ v
    end.
Proof.
  induction u as [|x u IH]; [done|].
  change (lstrip (String x (u +:+ v))
          = match lstrip (String x u) with
            | EmptyString => lstrip v
            | _ => lstrip (String x u) +:+ v
            end).
  simpl. by destruct (py_isspace x).
Qed.

Lemma rstrip_append (a b : string) :
  rstrip (a +:+ b)
  = match rstrip b with
    | EmptyString => rstrip a
    | _ => a +:+ rstrip b
    end.
Proof.
  unfold rstrip. rewrite rev_append, lstrip_append.
  destruct (lstrip (String.rev b)) as [|c t] eqn:E; [done|].
  rewrite rev_append, rev_involutive.
  destruct (String.rev (String c t)) eqn:E'; [|done].
  apply (f_equal String.rev) in E'. rewrite rev_involutive in E'. done.
Qed.

Lemma rstrip_tail (s pre : string) (c : ascii) :
  rstrip s = pre +:+ String c EmptyString -> py_isspace c = false.
Proof.
  unfold rstrip. intros H. apply (f_equal String.rev) in H.
  rewrite rev_involutive, rev_append in H.
  pose proof (lstrip_head (String.rev s)) as Hh. by rewrite H in Hh.
Qed.

(** X17.  The line of an advisory starts with the address of its NVD
    page and never ends in whitespace, with or without the description,
    whatever the identifier, the score and the description are. *)
Theorem fmt_vuln_line_shape (v : Vulnerability) (show_description : bool) :
  (∃ rest, fmt_vuln v show_description = nvd_url +:+ rest)
  ∧ (∀ pre c, fmt_vuln v show_description = pre +:+ String c EmptyString ->
              py_isspace c = false).
Proof.
  split.
  - unfold fmt_vuln.
    assert (∀ rest, ∃ rest', rstrip (nvd_url +:+ rest) = nvd_url +:+ rest') as H.
    { intros rest. rewrite rstrip_append.
      destruct (rstrip rest); [by exists EmptyString|by eexists]. }
    destruct show_description; [rewrite append_assoc|]; apply H.
  - intros pre c. unfold fmt_vuln. apply rstrip_tail.
Qed.

Lemma fmt_vuln_line_shape_witness :
  py_isspace "8"%char = false.
Proof.
  apply (proj2 (fmt_vuln_line_shape (V "CVE-2018-0003" 98 None) false)
           "https://nvd.nist.gov/vuln/detail/CVE-2018-0003     9.").
  reflexivity.
Defined.

(* ===================================================================== *)
(** * The text report: one line for each active advisory                  *)
(* ===================================================================== *)

Lemma echoes_app (a b : list Out) : echoes (a ++ b) = echoes a ++ echoes b.
Proof. apply omap_app. Qed.

Lemma echoes_secho {A} (f : A -> string) (fg : option string) (bold dim : bool)
    (l : list A) :
  echoes (map (fun x => Secho (f x) fg bold dim) l) = [].
Proof. induction l as [|x l IH]; [done|exact IH]. Qed.

Lemma echoes_echo {A} (f : A -> string) (l : list A) :
  echoes (map (fun x => Echo (f x)) l) = map f l.
Proof. induction l as [|x l IH]; [done|]. simpl. by rewrite <- IH. Qed.

Lemma echoes_concat {A} (f : A -> list Out) (l : list A) :
  echoes (concat (map f l)) = concat (map (fun x => echoes (f x)) l).
Proof.
  induction l as [|x l IH]; [done|]. simpl. by rewrite echoes_app, IH.
Qed.

Lemma concat_nils {A B} (f : A -> list B) (l : list A) :
  (∀ x, f x = []) -> concat (map f l) = [].
Proof. intros Hf. induction l as [|x l IH]; [done|]. simpl. by rewrite Hf, IH. Qed.

Lemma sorted_vulns_empty (o : Orders) (s : VulnSet) : set_truthy s = false -> sorted_vulns o s = [].
Proof.
  intros ->%set_truthy_false. unfold sorted_vulns, vulns.
  by rewrite map_to_list_empty.
Qed.

Lemma echoes_print (o : Orders) (i : Filtered) (show_masked show_description : bool) :
  echoes (Filtered_print o i show_masked show_description)
  = map (fun v => fmt_vuln v show_description) (sorted_vulns o (report i)).
Proof.
  unfold Filtered_print.
  destruct (andb _ _) eqn:E.
  - apply andb_true_iff in E as [E _]. apply negb_true_iff in E.
    by rewrite sorted_vulns_empty.
  - rewrite !echoes_app, echoes_echo.
    assert (echoes (concat (map (print_comments (negb (set_truthy (report i))))
                                (rules i))) = []) as ->.
    { rewrite echoes_concat. apply concat_nils. intros r. unfold print_comments.
      destruct (comment r) as [|c cs]; [done|].
      change (echoes (map (fun c => Secho ("* " +:+ c) (Some "blue") false
                                      (negb (set_truthy (report i)))) (c :: cs)) = []).
      apply echoes_secho. }
    assert (∀ b : bool, echoes (if b then map (fun v => Secho (fmt_vuln v show_description
                                                   +:+ "  [whitelisted]") None false true)
                                              (sorted_vulns o (masked i)) else []) = [])
      as ->.
    { intros []; [apply echoes_secho|done]. }
    destruct (opt_str_truthy _), (bool_decide _); simpl;
      rewrite ?app_nil_r; try done;
      change (echoes (map (fun url => Secho url (Some "cyan") false
                                        (negb (set_truthy (report i))))
                          (elements (issues_of (rules i)))))
        with (echoes (map (fun url => Secho ((fun x => x) url) (Some "cyan") false
                                        (negb (set_truthy (report i))))
                          (elements (issues_of (rules i)))));
      by rewrite echoes_secho, app_nil_r.
Qed.

Lemma concat_map_perm {A B} (g : A -> list B) (l l' : list A) :
  l ≡ₚ l' -> concat (map g l) ≡ₚ concat (map g l').
Proof.
  induction 1 as [|x l l' _ IH|x y l|l l' l'' _ IH1 _ IH2]; simpl.
  - done.
  - by rewrite IH.
  - rewrite !app_assoc. by rewrite (Permutation_app_comm (g y) (g x)).
  - by rewrite IH1.
Qed.

Lemma concat_map_pointwise {A B} (g h : A -> list B) (l : list A) :
  (∀ x, g x ≡ₚ h x) -> concat (map g l) ≡ₚ concat (map h l).
Proof.
  intros Hg. induction l as [|x l IH]; simpl; [done|]. by rewrite Hg, IH.
Qed.

Lemma concat_map_filter {A B} (p : A -> bool) (g : A -> list B) (l : list A) :
  (∀ x, p x = false -> g x = []) ->
  concat (map g (List.filter p l)) = concat (map g l).
Proof.
  intros Hg. induction l as [|x l IH]; simpl; [done|].
  destruct (p x) eqn:E; simpl; [by rewrite IH|]. by rewrite (Hg x E), IH.
Qed.

(** X18.  Whatever the flags, the text report has one plain line for
    each active advisory of each derivation of the collection, rendered
    by [fmt_vuln], and no other plain line. *)
Theorem text_report_lines_are_the_active_advisories (o : Orders)
    (items : list Filtered) (show_whitelisted show_description : bool) :
  echoes (output_text o items show_whitelisted show_description)
  ≡ₚ concat (map (fun i => map (fun v => fmt_vuln v show_description)
                               (vulns (report i))) items).
Proof.
  set (lines := fun i : Filtered =>
                  map (fun v => fmt_vuln v show_description) (sorted_vulns o (report i))).
  assert (∀ i, set_truthy (report i) = false -> lines i = []) as Hquiet.
  { intros i Hi. unfold lines. by rewrite sorted_vulns_empty. }
  transitivity (concat (map lines items)).
  2:{ apply concat_map_pointwise. intros i. unfold lines.
      apply Permutation_map. apply sorted_perm. }
  unfold output_text.
  set (active := List.filter (fun v => set_truthy (report v)) items).
  set (wl := List.filter (fun v => negb (set_truthy (report v))) items).
  assert (concat (map lines (by_derivation o active)) ≡ₚ concat (map lines items)) as Hact.
  { unfold by_derivation. rewrite (concat_map_perm lines _ active) by apply sorted_perm.
    unfold active. by rewrite (concat_map_filter _ lines items Hquiet). }
  assert (concat (map lines (by_derivation o wl)) = []) as Hwl.
  { assert (∀ l, Forall (fun i => set_truthy (report i) = false) l ->
                 concat (map lines l) = []) as Hn.
    { induction 1 as [|x l Hx _ IH]; simpl; [done|]. by rewrite (Hquiet x Hx), IH. }
    apply Hn. unfold by_derivation.
    apply Forall_forall. intros i Hi. rewrite sorted_perm in Hi.
    apply list_elem_of_In, filter_In in Hi as [_ Hi]. by apply negb_true_iff. }
  destruct (andb _ _) eqn:E.
  - replace (echoes (if match wl with [] => false | _ => true end
                     then [Secho (msg_nothing_to_show (length wl)) (Some "blue") false false]
                     else [Secho msg_no_advisories (Some "green") false false]))
      with (@nil string) by (by destruct wl).
    rewrite <- Hact.
    apply andb_true_iff in E as [E _]. apply negb_true_iff in E.
    by destruct active.
  - rewrite !echoes_app, !echoes_concat.
    fold lines.
    replace (concat (map (fun x => echoes (Filtered_print o x show_whitelisted show_description))
                         (by_derivation o active)))
      with (concat (map lines (by_derivation o active))).
    2:{ f_equal. apply map_ext. intros i. symmetry. apply echoes_print. }
    replace (echoes (if show_whitelisted
                     then concat (map (fun i => Filtered_print o i show_whitelisted
                                                  show_description) (by_derivation o wl))
                     else []))
      with (@nil string).
    2:{ destruct show_whitelisted; [|done]. rewrite echoes_concat.
        rewrite <- Hwl. f_equal. apply map_ext. intros i. symmetry. apply echoes_print. }
    rewrite <- Hact.
    destruct (andb (match wl with [] => false | _ => true end) (negb show_whitelisted));
      simpl; by rewrite ?app_nil_r.
Qed.
